(** * API performance monitor: a shallow embedding of [api_monitor.py]

    The monitor probes a list of HTTP endpoints in a loop, writes one row per
    check into the SQLite table [metrics], and serves a dashboard that reads
    the fifty newest rows and a per-endpoint summary.

    Everything the program asks of its surroundings (the system clock, the
    network, the database file) is answered by a [World]: three oracles
    indexed by the number of earlier calls.  The program itself is written in
    a state-and-exception monad [M] whose state holds the database, the three
    call counters and the trace of observable effects. *)

From Stdlib Require Import ZArith QArith Qround Qabs Lia Lqa Ascii String.
From stdpp Require Import gmap strings list sorting.

Local Open Scope string_scope.
Local Open Scope list_scope.
Local Open Scope Z_scope.

(** ** Exceptions

    Every class below derives from Python's [Exception], hence is caught by
    [except Exception].  A DNS failure reaches the caller of [requests] as a
    [ConnectionError].  [exn_text] is what [str(e)] returns. *)

Inductive ExnClass : Type :=
| Timeout
| ConnectionError
| RequestException
| OperationalError
| KeyError.

Record Exn : Type := mkExn { exn_class : ExnClass; exn_text : string }.

Inductive Result (A : Type) : Type :=
| Ok (a : A)
| Raise (e : Exn).
Arguments Ok {A} a.
Arguments Raise {A} e.

(** ** The persisted table *)

(** One row of [metrics]; the columns are those of [CREATE TABLE].  [REAL]
    values are modelled by exact rationals, [TEXT NULL] by [option]. *)
Record Row : Type := mkRow {
  rowid : Z;
  timestamp : string;
  endpoint : string;
  method : string;
  response_time : Q;
  status_code : Z;
  success : Z;
  error_message : option string
}.

(** The table with its [AUTOINCREMENT] counter (the largest id ever handed
    out, kept by SQLite in [sqlite_sequence]).  [rows] is in insertion
    order. *)
Record Table : Type := mkTable { rows : list Row; seq : Z }.

Definition empty_table : Table := mkTable [] 0.

(** ** The surroundings *)

Inductive HttpOutcome : Type :=
| Responded (status : Z)
| Failed (e : Exn).

(** How one [sqlite3.connect] session goes: well, or [connect] itself raises,
    or [execute]/[commit] raises (nothing is then persisted). *)
Inductive DbOutcome : Type :=
| DbOk
| DbConnectError (e : Exn)
| DbWriteError (e : Exn).

Record World : Type := mkWorld {
  (** n-th reading of the system clock, in microseconds since the epoch *)
  wall_clock : nat -> Z;
  (** n-th call of [requests.request(method, url, timeout=5)] *)
  http : nat -> string -> string -> HttpOutcome;
  (** n-th call of [sqlite3.connect(DATABASE)] *)
  sqlite : nat -> DbOutcome
}.

Inductive Event : Type :=
| Request (meth url : string)
| LogInfo (url : string) (status : Z) (elapsed : Q)
| LogError (url : string) (text : string)
| Sleep (seconds : Z).

Record State : Type := mkState {
  database : option Table;
  clock_reads : nat;
  requests_made : nat;
  connections : nat;
  trace : list Event
}.

Definition set_database (d : option Table) (s : State) : State :=
  mkState d (clock_reads s) (requests_made s) (connections s) (trace s).
Definition tick (s : State) : State :=
  mkState (database s) (S (clock_reads s)) (requests_made s) (connections s) (trace s).
Definition count_request (s : State) : State :=
  mkState (database s) (clock_reads s) (S (requests_made s)) (connections s) (trace s).
Definition count_connection (s : State) : State :=
  mkState (database s) (clock_reads s) (requests_made s) (S (connections s)) (trace s).
Definition emit (e : Event) (s : State) : State :=
  mkState (database s) (clock_reads s) (requests_made s) (connections s) (trace s ++ [e]).

(** ** The monad *)

Definition M (A : Type) : Type := State -> Result A * State.

Definition ret {A} (a : A) : M A := fun s => (Ok a, s).

Definition raise {A} (e : Exn) : M A := fun s => (Raise e, s).

Definition bind {A B} (m : M A) (k : A -> M B) : M B :=
  fun s =>
    match m s with
    | (Ok a, s') => k a s'
    | (Raise e, s') => (Raise e, s')
    end.

(** [try: body except Exception as e: handler e] *)
Definition try_except {A} (body : M A) (handler : Exn -> M A) : M A :=
  fun s =>
    match body s with
    | (Ok a, s') => (Ok a, s')
    | (Raise e, s') => handler e s'
    end.

Declare Scope py_scope.
Delimit Scope py_scope with py.
Notation "'let*' x ':=' c1 'in' c2" := (bind c1 (fun x => c2))
  (at level 10, x name, c1 at level 100, c2 at level 200) : py_scope.
Notation "c1 '>>' c2" := (bind c1 (fun _ => c2))
  (at level 100, c2 at level 200, right associativity) : py_scope.
Local Open Scope py_scope.

(** [for x in xs: body x] *)
Fixpoint for_each {A} (xs : list A) (body : A -> M unit) : M unit :=
  match xs with
  | [] => ret tt
  | x :: xs' => body x >> for_each xs' body
  end.

(** ** Strings and timestamps *)

(** [str.upper] on strings of ASCII characters, which is where the strings
    of this development model those of the program: the letters a to z go
    to A to Z, every other character stays.  A string with a character
    outside ASCII is not covered, [str.upper] follows Unicode there. *)
Definition upper_ascii (c : ascii) : ascii :=
  let n := nat_of_ascii c in
  if ((97 <=? n)%nat && (n <=? 122)%nat)%bool then ascii_of_nat (n - 32) else c.

Fixpoint upper (s : string) : string :=
  match s with
  | EmptyString => EmptyString
  | String c s' => String (upper_ascii c) (upper s')
  end.

Definition digit_char (d : Z) : ascii := ascii_of_nat (48 + Z.to_nat (d mod 10)).

(** [n] printed in decimal on exactly [width] digits, as ["%0<width>d"]
    prints a value that fits. *)
Fixpoint zero_padded (width : nat) (n : Z) : string :=
  match width with
  | O => EmptyString
  | S w' => zero_padded w' (n / 10) +:+ String (digit_char n) EmptyString
  end.

Record datetime : Type := mkDatetime {
  year : Z; month : Z; day : Z;
  hour : Z; minute : Z; second : Z; microsecond : Z
}.

(** Proleptic Gregorian date of the day that lies [days] days after
    1970-01-01. *)
Definition civil_from_days (days : Z) : Z * Z * Z :=
  let z := days + 719468 in
  let era := z / 146097 in
  let doe := z - era * 146097 in
  let yoe := (doe - doe / 1460 + doe / 36524 - doe / 146096) / 365 in
  let doy := doe - (365 * yoe + yoe / 4 - yoe / 100) in
  let mp := (5 * doy + 2) / 153 in
  let d := doy - (153 * mp + 2) / 5 + 1 in
  let m := if mp <? 10 then mp + 3 else mp - 9 in
  let y := yoe + era * 400 + (if m <=? 2 then 1 else 0) in
  (y, m, d).

(** The naive UTC [datetime] of a clock reading. *)
Definition utcfromtimestamp (micros : Z) : datetime :=
  let secs := micros / 1000000 in
  let sod := secs mod 86400 in
  let '(y, m, d) := civil_from_days (secs / 86400) in
  mkDatetime y m d (sod / 3600) (sod mod 3600 / 60) (sod mod 60) (micros mod 1000000).

(** [datetime.isoformat()]: the fraction is left out when it is zero. *)
Definition isoformat (t : datetime) : string :=
  zero_padded 4 (year t) +:+ "-" +:+ zero_padded 2 (month t) +:+ "-" +:+
  zero_padded 2 (day t) +:+ "T" +:+ zero_padded 2 (hour t) +:+ ":" +:+
  zero_padded 2 (minute t) +:+ ":" +:+ zero_padded 2 (second t) +:+
  (if microsecond t =? 0 then "" else "." +:+ zero_padded 6 (microsecond t)).

(** [time.time()] as a number of seconds. *)
Definition seconds_of (micros : Z) : Q := micros # 1000000.

(** The nearest integer, the even one of two that are equally near. *)
Definition round_half_even (x : Q) : Z :=
  let fl := Qfloor x in
  match Qcompare (x - inject_Z fl) (1 # 2) with
  | Lt => fl
  | Gt => fl + 1
  | Eq => if Z.even fl then fl else fl + 1
  end.

(** The number that the format [.2f] prints for [x]: [x] to the nearest
    hundredth. *)
Definition format_2f (x : Q) : Q := round_half_even (x * 100) # 100.


(** ** Module constants *)

Definition CHECK_INTERVAL : Z := 10.

Definition API_ENDPOINTS : list (gmap string string) :=
  [ {[ "url" := "https://jsonplaceholder.typicode.com/posts"; "method" := "GET" ]};
    {[ "url" := "https://jsonplaceholder.typicode.com/comments"; "method" := "GET" ]};
    {[ "url" := "https://jsonplaceholder.typicode.com/users"; "method" := "GET" ]} ].

(** ** SQL statements, as functions on the database file

    The file either holds the table [metrics] or does not. *)

Definition no_such_table : Exn := mkExn OperationalError "no such table: metrics".

(** [CREATE TABLE IF NOT EXISTS metrics (...)] *)
Definition create_table_if_not_exists (db : option Table) : Result (option Table) :=
  match db with
  | Some t => Ok (Some t)
  | None => Ok (Some empty_table)
  end.

(** The seven values bound to the placeholders of the [INSERT]. *)
Definition Params : Type := string * string * string * Q * Z * Z * option string.

Definition row_of (i : Z) (p : Params) : Row :=
  let '(ts, ep, meth, rt, sc, ok, err) := p in mkRow i ts ep meth rt sc ok err.

(** The new row gets an id one above the largest id ever used. *)
Definition insert_row (p : Params) (t : Table) : Table :=
  let i := seq t + 1 in mkTable (rows t ++ [row_of i p]) i.

(** [INSERT INTO metrics (timestamp, ..., error_message) VALUES (?, ..., ?)] *)
Definition insert_into_metrics (p : Params) (db : option Table)
    : Result (option Table) :=
  match db with
  | Some t => Ok (Some (insert_row p t))
  | None => Raise no_such_table
  end.

(** Insertion sort on descending [rowid], for [ORDER BY id DESC]. *)
Fixpoint insert_desc (r : Row) (l : list Row) : list Row :=
  match l with
  | [] => [r]
  | x :: l' => if rowid x <=? rowid r then r :: l else x :: insert_desc r l'
  end.

Definition order_by_id_desc (l : list Row) : list Row :=
  foldr insert_desc [] l.

(** [SELECT * FROM metrics ORDER BY id DESC LIMIT limit] *)
Definition select_recent (limit : nat) (t : Table) : list Row :=
  take limit (order_by_id_desc (rows t)).

Record SummaryRow : Type := mkSummaryRow {
  s_endpoint : string;
  total : Z;
  successes : Z;
  failures : Z;
  avg_time : option Q
}.

(** [SUM(CASE WHEN success=v THEN 1 ELSE 0 END)] *)
Definition sum_case (v : Z) (g : list Row) : Z :=
  foldr (fun r acc => (if success r =? v then 1 else 0) + acc) 0 g.

Definition sum_response_time (g : list Row) : Q :=
  foldr (fun r acc => (response_time r + acc)%Q) (0 : Q) g.

(** [AVG(response_time)]: NULL on an empty group. *)
Definition avg_response_time (g : list Row) : option Q :=
  match g with
  | [] => None
  | _ => Some (sum_response_time g / inject_Z (Z.of_nat (length g)))%Q
  end.

Definition group_of (ep : string) (l : list Row) : list Row :=
  filter (fun r => endpoint r = ep) l.

(** The distinct values of [endpoint] (SQL leaves the order of the groups
    open). *)
Definition group_keys (l : list Row) : list string :=
  remove_dups (endpoint <$> l).

Definition aggregate (ep : string) (g : list Row) : SummaryRow :=
  mkSummaryRow ep (Z.of_nat (length g)) (sum_case 1 g) (sum_case 0 g)
               (avg_response_time g).

(** [SELECT endpoint, COUNT( * ), SUM(...), SUM(...), AVG(response_time)
     FROM metrics GROUP BY endpoint] *)
Definition select_summary (t : Table) : list SummaryRow :=
  (fun ep => aggregate ep (group_of ep (rows t))) <$> group_keys (rows t).

(** ** The program *)

Section Program.

Variable w : World.

(** [time.time()] *)
Definition time_time : M Q :=
  fun s => (Ok (seconds_of (wall_clock w (clock_reads s))), tick s).

(** [datetime.utcnow().isoformat()] *)
Definition utcnow_isoformat : M string :=
  fun s => (Ok (isoformat (utcfromtimestamp (wall_clock w (clock_reads s)))), tick s).

(** [time.sleep(seconds)] *)
Definition time_sleep (seconds : Z) : M unit :=
  fun s => (Ok tt, emit (Sleep seconds) s).

(** [requests.request(method, url, timeout=5)]; the result is
    [response.status_code]. *)
Definition requests_request (meth url : string) : M Z :=
  fun s =>
    let s' := emit (Request meth url) (count_request s) in
    match http w (requests_made s) meth url with
    | Responded status => (Ok status, s')
    | Failed e => (Raise e, s')
    end.

(** [logging.info(f"Checked {url} - {status} in {elapsed:.2f}s")]: the
    line carries the elapsed time as [.2f] prints it. *)
Definition logging_info (url : string) (status : Z) (elapsed : Q) : M unit :=
  fun s => (Ok tt, emit (LogInfo url status (format_2f elapsed)) s).

Definition logging_error (url : string) (e : Exn) : M unit :=
  fun s => (Ok tt, emit (LogError url (exn_text e)) s).

(** [sqlite3.connect(DATABASE)]; the connection remembers how its session
    will go. *)
Definition sqlite3_connect : M DbOutcome :=
  fun s =>
    match sqlite w (connections s) with
    | DbConnectError e => (Raise e, count_connection s)
    | session => (Ok session, count_connection s)
    end.

(** [c.execute(stmt); conn.commit(); conn.close()] *)
Definition execute_commit (conn : DbOutcome)
    (stmt : option Table -> Result (option Table)) : M unit :=
  fun s =>
    match conn with
    | DbOk =>
        match stmt (database s) with
        | Ok db' => (Ok tt, set_database db' s)
        | Raise e => (Raise e, s)
        end
    | DbConnectError e | DbWriteError e => (Raise e, s)
    end.

Definition init_db : M unit :=
  let* conn := sqlite3_connect in
  execute_commit conn create_table_if_not_exists.

Definition log_metric (endpoint method : string) (response_time : Q)
    (status_code success : Z) (error_message : option string) : M unit :=
  let* conn := sqlite3_connect in
  let* now := utcnow_isoformat in
  execute_commit conn
    (insert_into_metrics
       (now, endpoint, method, response_time, status_code, success, error_message)).

(** [api["url"]] *)
Definition getitem (api : gmap string string) (key : string) : M string :=
  match api !! key with
  | Some v => ret v
  | None => raise (mkExn KeyError ("'" +:+ key +:+ "'"))
  end.

(** The body of [for api in API_ENDPOINTS].  [start = time.time()] cannot
    raise, so it is bound before the [try] and is in scope of the handler, as
    in the source. *)
Definition check (api : gmap string string) : M unit :=
  let* url := getitem api "url" in
  let method := upper (default "GET" (api !! "method")) in
  let* start := time_time in
  try_except
    (let* response := requests_request method url in
     let* now := time_time in
     let elapsed := (now - start)%Q in
     log_metric url method elapsed response 1 None >>
     logging_info url response elapsed)
    (fun e =>
     let* now := time_time in
     let elapsed := (now - start)%Q in
     log_metric url method elapsed (-1) 0 (Some (exn_text e)) >>
     logging_error url e).

(** One turn of [while True]. *)
Definition cycle (endpoints : list (gmap string string)) : M unit :=
  for_each endpoints check >>
  time_sleep CHECK_INTERVAL.

(** [monitor_api] has no exit; [n] bounds the number of turns observed. *)
Fixpoint monitor_loop (endpoints : list (gmap string string)) (n : nat) : M unit :=
  match n with
  | O => ret tt
  | S n' => cycle endpoints >> monitor_loop endpoints n'
  end.

Definition monitor_api (n : nat) : M unit := monitor_loop API_ENDPOINTS n.

(** The route ["/"]: both queries go through one connection. *)
Definition dashboard : M (list Row * list SummaryRow) :=
  let* conn := sqlite3_connect in
  fun s =>
    match conn, database s with
    | DbOk, Some t => (Ok (select_recent 50 t, select_summary t), s)
    | DbOk, None => (Raise no_such_table, s)
    | DbConnectError e, _ | DbWriteError e, _ => (Raise e, s)
    end.

(** [main] up to the start of the monitor thread. *)
Definition main (n : nat) : M unit :=
  init_db >> monitor_api n.

End Program.

(** ** Vocabulary of the statements *)

(** The exception an [INSERT] through this session raises on this database
    file, if any. *)
Definition write_error (session : DbOutcome) (db : option Table) : option Exn :=
  match session, db with
  | DbOk, Some _ => None
  | DbOk, None => Some no_such_table
  | DbConnectError e, _ | DbWriteError e, _ => Some e
  end.

(** Clock readings [log_metric] takes in such a session: the timestamp is
    computed after [connect] and before [execute]. *)
Definition clock_reads_of (session : DbOutcome) : nat :=
  match session with
  | DbConnectError _ => 0
  | _ => 1
  end.

(** The method a check uses for an endpoint. *)
Definition method_of (api : gmap string string) : string :=
  upper (default "GET" (api !! "method")).

(** The timestamp text of the n-th clock reading. *)
Definition stamp (w : World) (n : nat) : string :=
  isoformat (utcfromtimestamp (wall_clock w n)).

(** Seconds between the n-th and the m-th clock reading. *)
Definition elapsed_between (w : World) (n m : nat) : Q :=
  (seconds_of (wall_clock w m) - seconds_of (wall_clock w n))%Q.

Definition table_rows (db : option Table) : list Row :=
  match db with
  | Some t => rows t
  | None => []
  end.

(** ** Concrete surroundings

    Two endpoints, a state whose table exists and is empty with all
    counters at zero, and a handful of worlds on which the statements below
    are run. *)

Definition posts : gmap string string :=
  {[ "url" := "https://api.test/posts"; "method" := "get" ]}.

Definition users : gmap string string :=
  {[ "url" := "https://api.test/users" ]}.

Definition started : State := mkState (Some empty_table) 0 0 0 [].

(** A clock that advances a quarter of a second per reading, from
    2025-11-03T19:00:00 UTC. *)
Definition steady_clock (n : nat) : Z := 1762196400000000 + 250000 * Z.of_nat n.

Definition read_timeout : Exn :=
  mkExn Timeout "HTTPSConnectionPool(host='api.test', port=443): Read timed out. (read timeout=5)".

(** [requests.exceptions.Timeout()] raised without arguments. *)
Definition bare_timeout : Exn := mkExn Timeout "".

Definition database_locked : Exn := mkExn OperationalError "database is locked".

(** Every request is answered with [status]; the database works. *)
Definition world_answering (status : Z) : World :=
  mkWorld steady_clock (fun _ _ _ => Responded status) (fun _ => DbOk).

(** Every request raises [e]; the database works. *)
Definition world_failing (e : Exn) : World :=
  mkWorld steady_clock (fun _ _ _ => Failed e) (fun _ => DbOk).

(** Every request times out and every write finds the database locked. *)
Definition world_timeout_locked : World :=
  mkWorld steady_clock (fun _ _ _ => Failed read_timeout)
          (fun _ => DbWriteError database_locked).

(** Every request is answered with [status]; the first write of all finds
    the database locked, the later ones go through. *)
Definition world_locked_once (status : Z) : World :=
  mkWorld steady_clock (fun _ _ _ => Responded status)
          (fun n => match n with O => DbWriteError database_locked | _ => DbOk end).

(** The first request times out, the later ones are answered with 200; the
    database works. *)
Definition world_first_times_out : World :=
  mkWorld steady_clock
          (fun n _ _ => match n with O => Failed read_timeout | _ => Responded 200 end)
          (fun _ => DbOk).

(** The system clock is set back by two seconds between the first and the
    second reading; requests are answered, the database works. *)
Definition world_clock_set_back : World :=
  mkWorld (fun n => match n with O => 1762196400000000 | _ => 1762196398000000 end)
          (fun _ _ _ => Responded 200) (fun _ => DbOk).

Definition is_log_line (ev : Event) : Prop :=
  match ev with
  | LogInfo _ _ _ | LogError _ _ => True
  | Request _ _ | Sleep _ => False
  end.

Definition is_digit (c : ascii) : bool :=
  let n := nat_of_ascii c in ((48 <=? n)%nat && (n <=? 57)%nat)%bool.

Fixpoint all_digits (s : string) : bool :=
  match s with
  | EmptyString => true
  | String c s' => is_digit c && all_digits s'
  end.

(** The shape [YYYY-MM-DDTHH:MM:SS], with or without a fraction [.ffffff]
    of six digits. *)
Definition iso8601_seconds (s : string) : bool :=
  all_digits (substring 0 4 s) && String.eqb (substring 4 1 s) "-" &&
  all_digits (substring 5 2 s) && String.eqb (substring 7 1 s) "-" &&
  all_digits (substring 8 2 s) && String.eqb (substring 10 1 s) "T" &&
  all_digits (substring 11 2 s) && String.eqb (substring 13 1 s) ":" &&
  all_digits (substring 14 2 s) && String.eqb (substring 16 1 s) ":" &&
  all_digits (substring 17 2 s) &&
  ((String.length s =? 19)%nat ||
   ((String.length s =? 26)%nat && String.eqb (substring 19 1 s) "." &&
    all_digits (substring 20 6 s))).

Definition is_lower (c : ascii) : bool :=
  let n := nat_of_ascii c in ((97 <=? n)%nat && (n <=? 122)%nat)%bool.

Fixpoint has_lower (s : string) : bool :=
  match s with
  | EmptyString => false
  | String c s' => is_lower c || has_lower s'
  end.

(** The table after the inserts [ps], made in that order. *)
Definition inserts (ps : list Params) (t : Table) : Table :=
  foldl (fun t p => insert_row p t) t ps.

(** The rows the inserts [ps] produce when the first of them gets id [i]. *)
Fixpoint numbered (i : Z) (ps : list Params) : list Row :=
  match ps with
  | [] => []
  | p :: ps' => row_of i p :: numbered (i + 1) ps'
  end.

(** The invariant of the table: ids grow with the order of insertion and
    none is above the [AUTOINCREMENT] counter. *)
Definition table_wf (t : Table) : Prop :=
  StronglySorted (fun a b => rowid a < rowid b) (rows t) /\
  Forall (fun r => rowid r <= seq t) (rows t).

(** The rows carry 1 or 0 in [success], as [monitor_api] passes them. *)
Definition table_flagged (t : Table) : Prop :=
  Forall (fun r => success r = 0 \/ success r = 1) (rows t).

(** A property of the table holds of the database file when the file has
    no table or has one with the property. *)
Definition holds_on (P : Table -> Prop) (db : option Table) : Prop :=
  match db with
  | Some t => P t
  | None => True
  end.

(** The mean of a list of numbers, as the specification words it. *)
Definition mean (xs : list Q) : Q :=
  (foldr Qplus 0 xs / inject_Z (Z.of_nat (length xs)))%Q.

(** Three inserts whose timestamps run against the order of insertion. *)
Definition backdated : list Params :=
  [ ("2025-11-03T19:00:05", "https://api.test/posts", "GET", 1 # 10, 200, 1, None);
    ("2025-11-03T19:00:09", "https://api.test/users", "GET", 2 # 10, 200, 1, None);
    ("2025-11-03T18:59:58", "https://api.test/posts", "GET", 1 # 10, 200, 1, None) ].

(** Three successes of 0.1, 0.2 and 0.3 seconds and one failure of one
    second for one endpoint, among rows of another. *)
Definition scenario : list Params :=
  [ ("2025-11-03T19:00:00", "https://api.test/posts", "GET", 1 # 10, 200, 1, None);
    ("2025-11-03T19:00:01", "https://api.test/users", "GET", 5 # 10, 200, 1, None);
    ("2025-11-03T19:00:10", "https://api.test/posts", "GET", 1 # 1, -1, 0, Some "Read timed out.");
    ("2025-11-03T19:00:11", "https://api.test/users", "GET", 7 # 10, 500, 1, None);
    ("2025-11-03T19:00:20", "https://api.test/posts", "GET", 2 # 10, 404, 1, None);
    ("2025-11-03T19:00:30", "https://api.test/posts", "GET", 3 # 10, 200, 1, None) ].

(** ** The application context and the template

    [g] of Flask holds at most the connection of the current request. *)

(** [get_db()]: the connection kept in [g], opened on first use. *)
Definition get_db (w : World) (g : option DbOutcome) : M (DbOutcome * option DbOutcome) :=
  match g with
  | Some db => ret (db, g)
  | None => let* db := sqlite3_connect w in ret (db, Some db)
  end.

(** [close_db(error)]: [g.pop("db", None)], then [close()] on what was
    there. *)
Definition close_db (g : option DbOutcome) : option DbOutcome := None.

(** The two [db.execute(...).fetchall()] of the route on the connection
    [conn]. *)
Definition fetch_dashboard (conn : DbOutcome) : M (list Row * list SummaryRow) :=
  fun s =>
    match conn, database s with
    | DbOk, Some t => (Ok (select_recent 50 t, select_summary t), s)
    | DbOk, None => (Raise no_such_table, s)
    | DbConnectError e, _ | DbWriteError e, _ => (Raise e, s)
    end.

(** The route ["/"] in an application context [g], up to the rendering. *)
Definition dashboard_in (w : World) (g : option DbOutcome)
    : M (list Row * list SummaryRow * option DbOutcome) :=
  let* c := get_db w g in
  let* page := fetch_dashboard (fst c) in
  ret (page, snd c).

(** [str.split(sep)] for a separator of one character. *)
Fixpoint str_split (sep : ascii) (s : string) : list string :=
  match s with
  | EmptyString => [EmptyString]
  | String c s' =>
      if Ascii.eqb c sep then EmptyString :: str_split sep s'
      else match str_split sep s' with
           | x :: xs => String c x :: xs
           | [] => [String c EmptyString]
           end
  end.

(** [m['timestamp'].split('T')[1].split('.')[0]]; [None] when the template
    fails on the missing second part. *)
Definition time_cell (ts : string) : option string :=
  match str_split "T" ts with
  | _ :: x :: _ => head (str_split "." x)
  | _ => None
  end.

Inductive StatusCell : Type :=
| ShowCode (code : Z)
| ShowFailed.

(** [{% if m['success'] == 1 %} status_code {% else %} Failed {% endif %}] *)
Definition status_cell (m : Row) : StatusCell :=
  if success m =? 1 then ShowCode (status_code m) else ShowFailed.

(** [m['error_message'] or "-"]: NULL and the empty string are both
    false. *)
Definition error_cell (m : Row) : string :=
  match error_message m with
  | Some (String c s) => String c s
  | Some EmptyString | None => "-"
  end.

(** [(row['failures'] / row['total'] * 100) if row['total'] > 0 else 0] *)
Definition error_rate (x : SummaryRow) : Q :=
  if 0 <? total x then (inject_Z (failures x) / inject_Z (total x) * 100)%Q else 0%Q.

(** [{% if error_rate > 20 %}]: the line is shown as unstable. *)
Definition unstable (x : SummaryRow) : bool := negb (Qle_bool (error_rate x) 20).

(** ** Vocabulary of the further statements *)

(** What the monitor passes to an [INSERT]: a timestamp of [isoformat], a
    method without lower-case letter, and either a success without message
    or a failure with the sentinel status and a message. *)
Definition monitor_row (p : Params) : Prop :=
  let '(ts, ep, meth, rt, sc, ok, err) := p in
  iso8601_seconds ts = true /\
  has_lower meth = false /\
  ((ok = 1 /\ err = None) \/ (ok = 0 /\ sc = -1 /\ is_Some err)).

(** The log line [ev] tells what the inserted values [p] tell. *)
Definition log_matches (ev : Event) (p : Params) : Prop :=
  let '(ts, ep, meth, rt, sc, ok, err) := p in
  match ev with
  | LogInfo url st el => url = ep /\ st = sc /\ el = format_2f rt /\ ok = 1 /\ err = None
  | LogError url text => url = ep /\ sc = -1 /\ ok = 0 /\ err = Some text
  | Request _ _ | Sleep _ => False
  end.

(** The requests and the sleeps of a trace, in order. *)
Definition requests_of (evs : list Event) : list (string * string) :=
  omap (fun ev => match ev with Request m u => Some (m, u) | _ => None end) evs.

Definition sleeps_of (evs : list Event) : list Z :=
  omap (fun ev => match ev with Sleep n => Some n | _ => None end) evs.

(** The request a check makes for an endpoint, if the endpoint has a url. *)
Definition planned_request (api : gmap string string) : option (string * string) :=
  (fun url => (method_of api, url)) <$> api !! "url".

(** The invariant of a table the monitor alone has written: what
    [monitor_row] says, row by row. *)
Definition row_consistent (r : Row) : Prop :=
  iso8601_seconds (timestamp r) = true /\
  has_lower (method r) = false /\
  ((success r = 1 /\ error_message r = None) \/
   (success r = 0 /\ status_code r = -1 /\ is_Some (error_message r))).

(** The ids are 1, 2, ... without gap and the counter is the last of them. *)
Definition table_gapless (t : Table) : Prop :=
  rowid <$> rows t = seqZ 1 (Z.of_nat (length (rows t))) /\
  seq t = Z.of_nat (length (rows t)).

(** An endpoint whose configuration lacks the url. *)
Definition nameless : gmap string string := {[ "method" := "GET" ]}.


(** The character [sep] does not occur in [s]. *)
Definition lacks (sep : ascii) (s : string) : Prop :=
  forall c, In c (list_ascii_of_string s) -> c <> sep.


(** The first write after [init_db] finds the database locked; everything
    else works and every request is answered with 200. *)
Definition world_locked_after_init : World :=
  mkWorld steady_clock (fun _ _ _ => Responded 200)
          (fun n => match n with 1%nat => DbWriteError database_locked | _ => DbOk end).

Ltac enter_check Hurl :=
  unfold check, getitem, bind, try_except, time_time, requests_request,
    logging_info, logging_error;
  rewrite Hurl; simpl;
  repeat match goal with
    | |- context [upper (default "GET" (?a !! "method"))] => fold (method_of a)
    end.

(** * Proofs *)

(** ** How one call of [log_metric] and one check run *)

Section Steps.

Variable w : World.

Lemma log_metric_eq ep meth rt sc ok err s :
  log_metric w ep meth rt sc ok err s =
  match write_error (sqlite w (connections s)) (database s) with
  | None =>
      (Ok tt,
       mkState (insert_row (stamp w (clock_reads s), ep, meth, rt, sc, ok, err)
                  <$> database s)
               (S (clock_reads s)) (requests_made s) (S (connections s)) (trace s))
  | Some e =>
      (Raise e,
       mkState (database s)
               (clock_reads_of (sqlite w (connections s)) + clock_reads s)
               (requests_made s) (S (connections s)) (trace s))
  end.
Proof.
  unfold log_metric, sqlite3_connect, utcnow_isoformat, execute_commit, bind, stamp.
  destruct s as [db n q c tr]; simpl.
  destruct (sqlite w c), db; reflexivity.
Qed.

(** The request is answered and the row is written at once. *)
Lemma check_responded_stored api url st s :
  api !! "url" = Some url ->
  http w (requests_made s) (method_of api) url = Responded st ->
  write_error (sqlite w (connections s)) (database s) = None ->
  check w api s =
  (Ok tt,
   mkState
     (insert_row (stamp w (2 + clock_reads s), url, method_of api,
                  elapsed_between w (clock_reads s) (1 + clock_reads s),
                  st, 1, None) <$> database s)
     (3 + clock_reads s) (S (requests_made s)) (S (connections s))
     (trace s ++ [Request (method_of api) url;
                  LogInfo url st
                    (format_2f (elapsed_between w (clock_reads s) (1 + clock_reads s)))])).
Proof.
  intros Hurl Hhttp Hdb. enter_check Hurl. rewrite Hhttp.
  rewrite log_metric_eq. simpl. rewrite Hdb. simpl.
  unfold emit; simpl. rewrite <- app_assoc. reflexivity.
Qed.

(** The request raises and the handler writes its row. *)
Lemma check_failed_stored api url e s :
  api !! "url" = Some url ->
  http w (requests_made s) (method_of api) url = Failed e ->
  write_error (sqlite w (connections s)) (database s) = None ->
  check w api s =
  (Ok tt,
   mkState
     (insert_row (stamp w (2 + clock_reads s), url, method_of api,
                  elapsed_between w (clock_reads s) (1 + clock_reads s),
                  -1, 0, Some (exn_text e)) <$> database s)
     (3 + clock_reads s) (S (requests_made s)) (S (connections s))
     (trace s ++ [Request (method_of api) url; LogError url (exn_text e)])).
Proof.
  intros Hurl Hhttp Hdb. enter_check Hurl. rewrite Hhttp.
  rewrite log_metric_eq. simpl. rewrite Hdb. simpl.
  unfold emit; simpl. rewrite <- app_assoc. reflexivity.
Qed.

(** The request raises and the handler's own write raises too: nothing
    catches that second exception. *)
Lemma check_failed_lost api url e e' s :
  api !! "url" = Some url ->
  http w (requests_made s) (method_of api) url = Failed e ->
  write_error (sqlite w (connections s)) (database s) = Some e' ->
  check w api s =
  (Raise e',
   mkState (database s)
     (clock_reads_of (sqlite w (connections s)) + (2 + clock_reads s))
     (S (requests_made s)) (S (connections s))
     (trace s ++ [Request (method_of api) url])).
Proof.
  intros Hurl Hhttp Hdb. enter_check Hurl. rewrite Hhttp.
  rewrite log_metric_eq. simpl. rewrite Hdb. reflexivity.
Qed.

(** The request is answered, the first write raises, the handler's write
    goes through. *)
Lemma check_responded_retried api url st e s :
  api !! "url" = Some url ->
  http w (requests_made s) (method_of api) url = Responded st ->
  write_error (sqlite w (connections s)) (database s) = Some e ->
  write_error (sqlite w (S (connections s))) (database s) = None ->
  check w api s =
  let k := clock_reads_of (sqlite w (connections s)) in
  (Ok tt,
   mkState
     (insert_row (stamp w (S (k + (2 + clock_reads s))), url, method_of api,
                  elapsed_between w (clock_reads s) (k + (2 + clock_reads s)),
                  -1, 0, Some (exn_text e)) <$> database s)
     (S (S (k + (2 + clock_reads s)))) (S (requests_made s)) (S (S (connections s)))
     (trace s ++ [Request (method_of api) url; LogError url (exn_text e)])).
Proof.
  intros Hurl Hhttp Hdb Hdb'. enter_check Hurl. rewrite Hhttp.
  rewrite log_metric_eq. simpl. rewrite Hdb.
  rewrite log_metric_eq. simpl. rewrite Hdb'. simpl.
  unfold emit; simpl. rewrite <- app_assoc. reflexivity.
Qed.

(** The request is answered and both writes raise. *)
Lemma check_responded_lost api url st e e' s :
  api !! "url" = Some url ->
  http w (requests_made s) (method_of api) url = Responded st ->
  write_error (sqlite w (connections s)) (database s) = Some e ->
  write_error (sqlite w (S (connections s))) (database s) = Some e' ->
  check w api s =
  let k := clock_reads_of (sqlite w (connections s)) in
  (Raise e',
   mkState (database s)
     (clock_reads_of (sqlite w (S (connections s))) + S (k + (2 + clock_reads s)))
     (S (requests_made s)) (S (S (connections s)))
     (trace s ++ [Request (method_of api) url])).
Proof.
  intros Hurl Hhttp Hdb Hdb'. enter_check Hurl. rewrite Hhttp.
  rewrite log_metric_eq. simpl. rewrite Hdb.
  rewrite log_metric_eq. simpl. rewrite Hdb'. reflexivity.
Qed.

End Steps.

(** ** Checks whose request raises (C1) *)

Lemma write_error_none session db :
  write_error session db = None -> exists t, db = Some t.
Proof. destruct session, db; simpl; intros; simplify_eq; eauto. Qed.

(** C1, as amended.  When the request of a check raises an exception [e]
    (a timeout, a connection or DNS failure, any other exception of the
    transport) and the write the handler makes goes through, the check
    returns normally and exactly one row is added for it, with [success = 0],
    [status_code = -1] and [error_message] the text [str(e)]; that message is
    non-empty whenever the text of the exception is. *)
Theorem transport_failure_recorded (w : World) (api : gmap string string)
    (url : string) (e : Exn) (s : State) :
  api !! "url" = Some url ->
  http w (requests_made s) (method_of api) url = Failed e ->
  write_error (sqlite w (connections s)) (database s) = None ->
  exists r s',
    check w api s = (Ok tt, s') /\
    table_rows (database s') = table_rows (database s) ++ [r] /\
    endpoint r = url /\
    success r = 0 /\
    status_code r = -1 /\
    error_message r = Some (exn_text e) /\
    (exn_text e <> "" -> error_message r <> Some "").
Proof.
  intros Hurl Hhttp Hdb.
  destruct (write_error_none _ _ Hdb) as [t Ht].
  rewrite (check_failed_stored w api url e s Hurl Hhttp Hdb), Ht.
  eexists _, _. split; [reflexivity |]. simpl.
  repeat split. intros Htext Hmsg. simpl in Hmsg. congruence.
Qed.

Lemma transport_failure_recorded_witness :
  exists r s',
    check (world_failing read_timeout) posts started = (Ok tt, s') /\
    table_rows (database s') = table_rows (database started) ++ [r] /\
    endpoint r = "https://api.test/posts" /\
    success r = 0 /\
    status_code r = -1 /\
    error_message r = Some (exn_text read_timeout) /\
    error_message r <> Some "".
Proof.
  destruct (transport_failure_recorded (world_failing read_timeout) posts
              "https://api.test/posts" read_timeout started)
    as (r & s' & Hrun & Hrows & Hep & Hok & Hsc & Hmsg & Hne);
    [reflexivity | reflexivity | reflexivity |].
  exists r, s'. repeat (split; [assumption |]). apply Hne. discriminate.
Defined.

(** C1, counterexamples.  A request that times out while the database is
    locked: the handler's [log_metric] raises, that exception leaves the
    check, and no row is written.  And a request that raises an exception
    without text, the database working: the row written has the empty string
    as its [error_message]. *)
Lemma transport_failure_counterexample :
  (http world_timeout_locked 0 "GET" "https://api.test/posts" = Failed read_timeout /\
   fst (check world_timeout_locked posts started) = Raise database_locked /\
   table_rows (database (snd (check world_timeout_locked posts started))) = []) /\
  (http (world_failing bare_timeout) 0 "GET" "https://api.test/posts" = Failed bare_timeout /\
   exists r,
     table_rows (database (snd (check (world_failing bare_timeout) posts started))) = [r] /\
     success r = 0 /\
     error_message r = Some "").
Proof.
  split; [repeat split |]; try reflexivity.
  split; [reflexivity |]. eexists. vm_compute. repeat split.
Qed.

(** ** Checks whose request is answered (C5, C9) *)

(** C5, as amended.  When the request of a check is answered and the write
    of its row goes through, the check adds exactly one row, with
    [success = 1], [status_code] the status received, whatever its value,
    and [error_message] NULL. *)
Theorem response_recorded (w : World) (api : gmap string string)
    (url : string) (st : Z) (s : State) :
  api !! "url" = Some url ->
  http w (requests_made s) (method_of api) url = Responded st ->
  write_error (sqlite w (connections s)) (database s) = None ->
  exists r s',
    check w api s = (Ok tt, s') /\
    table_rows (database s') = table_rows (database s) ++ [r] /\
    endpoint r = url /\
    success r = 1 /\
    status_code r = st /\
    error_message r = None.
Proof.
  intros Hurl Hhttp Hdb.
  destruct (write_error_none _ _ Hdb) as [t Ht].
  rewrite (check_responded_stored w api url st s Hurl Hhttp Hdb), Ht.
  eexists _, _. split; [reflexivity |]. simpl. repeat split.
Qed.

Lemma response_recorded_witness :
  exists r s',
    check (world_answering 404) posts started = (Ok tt, s') /\
    table_rows (database s') = table_rows (database started) ++ [r] /\
    endpoint r = "https://api.test/posts" /\
    success r = 1 /\
    status_code r = 404 /\
    error_message r = None.
Proof.
  apply (response_recorded (world_answering 404) posts
           "https://api.test/posts" 404 started); reflexivity.
Defined.

(** C5, counterexample.  The request is answered with 404, the write of the
    success row finds the database locked, the handler's write goes through:
    the one row recorded for the check has [success = 0], [status_code = -1]
    and an [error_message]. *)
Lemma response_recorded_counterexample :
  http (world_locked_once 404) 0 "GET" "https://api.test/posts" = Responded 404 /\
  exists r,
    table_rows (database (snd (check (world_locked_once 404) posts started))) = [r] /\
    success r = 0 /\
    status_code r = -1 /\
    error_message r = Some "database is locked".
Proof.
  split; [reflexivity |]. eexists. vm_compute. repeat split.
Qed.

(** C9.  When the request is answered but the write of the success row
    raises a storage exception [e], the one handler of the loop takes over
    as for a failed request: if its write goes through, the row recorded for
    the check has [success = 0], [status_code = -1] and [error_message] the
    text of [e], and the log line is the error line.  The status received is
    kept nowhere: another status in its place leads to the same result and
    the same final state. *)
Theorem storage_failure_masks_response (w : World) (api : gmap string string)
    (url : string) (st : Z) (e : Exn) (s : State) :
  api !! "url" = Some url ->
  http w (requests_made s) (method_of api) url = Responded st ->
  write_error (sqlite w (connections s)) (database s) = Some e ->
  write_error (sqlite w (S (connections s))) (database s) = None ->
  (exists r s',
     check w api s = (Ok tt, s') /\
     table_rows (database s') = table_rows (database s) ++ [r] /\
     endpoint r = url /\
     success r = 0 /\
     status_code r = -1 /\
     error_message r = Some (exn_text e) /\
     trace s' = trace s ++ [Request (method_of api) url; LogError url (exn_text e)]) /\
  (forall (w' : World) (st' : Z),
     (forall n, wall_clock w' n = wall_clock w n) ->
     (forall n, sqlite w' n = sqlite w n) ->
     http w' (requests_made s) (method_of api) url = Responded st' ->
     check w' api s = check w api s).
Proof.
  intros Hurl Hhttp Hdb Hdb'.
  destruct (write_error_none _ _ Hdb') as [t Ht].
  rewrite (check_responded_retried w api url st e s Hurl Hhttp Hdb Hdb').
  split.
  - rewrite Ht. eexists _, _. split; [reflexivity |]. simpl. repeat split.
  - intros w' st' Hclock Hsqlite Hhttp'.
    rewrite (check_responded_retried w' api url st' e s Hurl Hhttp');
      rewrite ?Hsqlite; try assumption.
    unfold stamp, elapsed_between. rewrite !Hclock. reflexivity.
Qed.

Lemma storage_failure_masks_response_witness :
  (exists r s',
     check (world_locked_once 404) posts started = (Ok tt, s') /\
     table_rows (database s') = table_rows (database started) ++ [r] /\
     endpoint r = "https://api.test/posts" /\
     success r = 0 /\
     status_code r = -1 /\
     error_message r = Some (exn_text database_locked) /\
     trace s' = trace started ++ [Request (method_of posts) "https://api.test/posts";
                                  LogError "https://api.test/posts" (exn_text database_locked)]) /\
  check (world_locked_once 200) posts started = check (world_locked_once 404) posts started.
Proof.
  destruct (storage_failure_masks_response (world_locked_once 404) posts
              "https://api.test/posts" 404 database_locked started)
    as [Hrow Hsame]; [reflexivity | reflexivity | reflexivity | reflexivity |].
  split; [exact Hrow |].
  apply (Hsame (world_locked_once 200) 200); reflexivity.
Defined.

(** ** A failed write inside a cycle (C2) *)

Lemma for_each_cons {A} (x : A) (xs : list A) (body : A -> M unit) s :
  for_each (x :: xs) body s =
  match body x s with
  | (Ok _, s') => for_each xs body s'
  | (Raise e, s') => (Raise e, s')
  end.
Proof. reflexivity. Qed.

(** C2, as amended.  When the write of an endpoint's success row raises,
    the handler of the loop catches the exception; provided the write the
    handler then makes goes through, the exception is logged as an error
    line and the cycle goes on with the next endpoint: the rest of the
    cycle runs from the state the check leaves, no later endpoint is
    skipped. *)
Theorem failed_write_contained (w : World) (api : gmap string string)
    (rest : list (gmap string string)) (url : string) (st : Z) (e : Exn)
    (s : State) :
  api !! "url" = Some url ->
  http w (requests_made s) (method_of api) url = Responded st ->
  write_error (sqlite w (connections s)) (database s) = Some e ->
  write_error (sqlite w (S (connections s))) (database s) = None ->
  exists s',
    check w api s = (Ok tt, s') /\
    trace s' = trace s ++ [Request (method_of api) url; LogError url (exn_text e)] /\
    for_each (api :: rest) (check w) s = for_each rest (check w) s' /\
    cycle w (api :: rest) s = cycle w rest s'.
Proof.
  intros Hurl Hhttp Hdb Hdb'.
  eexists. split; [apply (check_responded_retried w api url st e s); assumption |].
  split; [reflexivity |].
  unfold cycle, bind. rewrite for_each_cons.
  rewrite (check_responded_retried w api url st e s Hurl Hhttp Hdb Hdb').
  split; reflexivity.
Qed.

Lemma failed_write_contained_witness :
  exists s',
    check (world_locked_once 200) posts started = (Ok tt, s') /\
    trace s' = trace started ++ [Request (method_of posts) "https://api.test/posts";
                                 LogError "https://api.test/posts" (exn_text database_locked)] /\
    for_each [posts; users] (check (world_locked_once 200)) started =
      for_each [users] (check (world_locked_once 200)) s' /\
    cycle (world_locked_once 200) [posts; users] started =
      cycle (world_locked_once 200) [users] s'.
Proof.
  apply (failed_write_contained (world_locked_once 200) posts [users]
           "https://api.test/posts" 200 database_locked started); reflexivity.
Defined.

(** C2, counterexample.  In a cycle over two endpoints the first request
    times out and the handler's write finds the database locked: that one
    failed write ends the cycle with the exception, and the second endpoint
    is never requested. *)
Lemma failed_write_counterexample :
  fst (cycle world_timeout_locked [posts; users] started) = Raise database_locked /\
  trace (snd (cycle world_timeout_locked [posts; users] started)) =
    [Request "GET" "https://api.test/posts"].
Proof. split; reflexivity. Qed.

(** ** Timestamps and upper case *)

Lemma is_digit_digit_char d : is_digit (digit_char d) = true.
Proof.
  unfold is_digit, digit_char.
  assert (H : 0 <= d mod 10 < 10) by (apply Z.mod_pos_bound; lia).
  rewrite nat_ascii_embedding by lia.
  apply andb_true_intro. split; apply Nat.leb_le; lia.
Qed.

Lemma isoformat_shape t : iso8601_seconds (isoformat t) = true.
Proof.
  unfold isoformat. destruct (microsecond t =? 0);
    lazy -[digit_char is_digit Z.div Z.modulo];
    rewrite !is_digit_digit_char; reflexivity.
Qed.

Lemma upper_ascii_not_lower c : is_lower (upper_ascii c) = false.
Proof. destruct c as [[] [] [] [] [] [] [] []]; reflexivity. Qed.

Lemma upper_no_lower s : has_lower (upper s) = false.
Proof.
  induction s as [| c s IH]; simpl; [reflexivity |].
  rewrite upper_ascii_not_lower, IH. reflexivity.
Qed.


Lemma upper_idempotent s : upper (upper s) = upper s.
Proof.
  induction s as [| c s IH]; simpl; [reflexivity |]. rewrite IH. f_equal.
  destruct c as [[] [] [] [] [] [] [] []]; reflexivity.
Qed.

(** ** What any check does *)

(** A check issues one request, with the upper-cased method; then it either
    raises and leaves the table as it was, or returns and has added one row,
    stamped with its last clock reading and flagged 1 or 0. *)
Lemma check_effect (w : World) (api : gmap string string) (url : string) (s : State) :
  api !! "url" = Some url ->
  exists res s',
    check w api s = (res, s') /\
    (exists log,
       trace s' = trace s ++ Request (method_of api) url :: log /\
       Forall is_log_line log) /\
    ((exists e, res = Raise e /\ database s' = database s) \/
     (exists t rt sc ok err,
        res = Ok tt /\
        database s = Some t /\
        (clock_reads s + 3 <= clock_reads s')%nat /\
        (ok = 1 \/ ok = 0) /\
        database s' =
          Some (insert_row (stamp w (pred (clock_reads s')), url, method_of api,
                            rt, sc, ok, err) t))).
Proof.
  intros Hurl.
  destruct (http w (requests_made s) (method_of api) url) as [st | e] eqn:Hhttp;
    destruct (write_error (sqlite w (connections s)) (database s)) as [e1 |] eqn:Hdb.
  - destruct (write_error (sqlite w (S (connections s))) (database s)) as [e2 |] eqn:Hdb'.
    + rewrite (check_responded_lost w api url st e1 e2 s) by assumption.
      eexists _, _. split; [reflexivity |]. simpl. split.
      * exists []. split; [reflexivity | constructor].
      * left. eauto.
    + destruct (write_error_none _ _ Hdb') as [t Ht].
      rewrite (check_responded_retried w api url st e1 s) by assumption.
      eexists _, _. split; [reflexivity |]. simpl. split.
      * eexists [_]. split; [reflexivity |]. repeat constructor.
      * right. rewrite Ht. simpl. eexists _, _, _, _, _.
        split; [reflexivity |]. split; [reflexivity |]. split; [lia |].
        split; [| reflexivity]. auto.
  - destruct (write_error_none _ _ Hdb) as [t Ht].
    rewrite (check_responded_stored w api url st s) by assumption.
    eexists _, _. split; [reflexivity |]. simpl. split.
    + eexists [_]. split; [reflexivity |]. repeat constructor.
    + right. rewrite Ht. simpl. eexists _, _, _, _, _.
      split; [reflexivity |]. split; [reflexivity |]. split; [lia |].
      split; [| reflexivity]. auto.
  - rewrite (check_failed_lost w api url e e1 s) by assumption.
    eexists _, _. split; [reflexivity |]. simpl. split.
    + exists []. split; [reflexivity | constructor].
    + left. eauto.
  - destruct (write_error_none _ _ Hdb) as [t Ht].
    rewrite (check_failed_stored w api url e s) by assumption.
    eexists _, _. split; [reflexivity |]. simpl. split.
    + eexists [_]. split; [reflexivity |]. repeat constructor.
    + right. rewrite Ht. simpl. eexists _, _, _, _, _.
      split; [reflexivity |]. split; [reflexivity |]. split; [lia |].
      split; [| reflexivity]. auto.
Qed.

(** ** The timestamp of a row (C7) *)




(** ** The method of a check (C10) *)




Example method_of_lower_case : method_of posts = "GET".
Proof. reflexivity. Qed.

Example method_of_missing : method_of users = "GET".
Proof. reflexivity. Qed.

(** ** One row per check (C6) *)

Lemma elapsed_nonneg (w : World) (n m : nat) :
  wall_clock w n <= wall_clock w m -> (0 <= elapsed_between w n m)%Q.
Proof.
  intros H. unfold elapsed_between, seconds_of.
  apply -> Qle_minus_iff. unfold Qle. simpl. lia.
Qed.

(** C6, as amended.  In a cycle whose writes all go through, every check
    adds exactly one row, whatever the outcome of its request: the rows
    added are, in order, one per endpoint, so an endpoint probed after one
    that timed out still gets its row.  The response time of each of these
    rows is the difference of two readings of the system clock, the one at
    the start of its check and the next one, and is >= 0 provided the clock
    is not set back between these two. *)
Theorem one_row_per_check (w : World) (endpoints : list (gmap string string))
    (s : State) (t : Table) :
  Forall (fun api => is_Some (api !! "url")) endpoints ->
  database s = Some t ->
  (forall n, sqlite w n = DbOk) ->
  exists added s',
    for_each endpoints (check w) s = (Ok tt, s') /\
    cycle w endpoints s = (Ok tt, emit (Sleep CHECK_INTERVAL) s') /\
    table_rows (database s') = rows t ++ added /\
    Forall2 (fun api r => api !! "url" = Some (endpoint r)) endpoints added /\
    (forall (i : nat) (r : Row),
       added !! i = Some r ->
       let start := (clock_reads s + 3 * i)%nat in
       response_time r =
         (seconds_of (wall_clock w (S start)) - seconds_of (wall_clock w start))%Q /\
       (wall_clock w start <= wall_clock w (S start) -> (0 <= response_time r)%Q)).
Proof.
  intros Hurls Ht Hdb.
  assert (Hloop : exists added s',
    for_each endpoints (check w) s = (Ok tt, s') /\
    table_rows (database s') = rows t ++ added /\
    Forall2 (fun api r => api !! "url" = Some (endpoint r)) endpoints added /\
    (forall (i : nat) (r : Row),
       added !! i = Some r ->
       response_time r =
         elapsed_between w (clock_reads s + 3 * i) (S (clock_reads s + 3 * i)))).
  { revert s t Ht. induction Hurls as [| api rest [url Hurl] _ IH]; intros s t Ht.
    - exists [], s. simpl. rewrite Ht, app_nil_r.
      repeat split; [constructor |]. intros i r Hi. discriminate.
    - assert (Hw : write_error (sqlite w (connections s)) (database s) = None)
        by (rewrite Hdb, Ht; reflexivity).
      rewrite for_each_cons.
      destruct (http w (requests_made s) (method_of api) url) as [st | e] eqn:Hhttp.
      + rewrite (check_responded_stored w api url st s Hurl Hhttp Hw), Ht. simpl.
        edestruct IH as (added & s' & -> & Hrows & Hall & Htimes); [reflexivity |].
        eexists (_ :: added), s'. split; [reflexivity |].
        split; [rewrite Hrows; simpl; rewrite <- app_assoc; reflexivity |].
        split; [constructor; [exact Hurl | exact Hall] |].
        intros [| i] r Hi; simpl in Hi.
        * injection Hi as <-.
          match goal with
          | |- _ = elapsed_between w ?a (S ?a) => replace a with (clock_reads s) by lia
          end.
          reflexivity.
        * rewrite (Htimes i r Hi). f_equal; simpl; lia.
      + rewrite (check_failed_stored w api url e s Hurl Hhttp Hw), Ht. simpl.
        edestruct IH as (added & s' & -> & Hrows & Hall & Htimes); [reflexivity |].
        eexists (_ :: added), s'. split; [reflexivity |].
        split; [rewrite Hrows; simpl; rewrite <- app_assoc; reflexivity |].
        split; [constructor; [exact Hurl | exact Hall] |].
        intros [| i] r Hi; simpl in Hi.
        * injection Hi as <-.
          match goal with
          | |- _ = elapsed_between w ?a (S ?a) => replace a with (clock_reads s) by lia
          end.
          reflexivity.
        * rewrite (Htimes i r Hi). f_equal; simpl; lia. }
  destruct Hloop as (added & s' & Hrun & Hrows & Hall & Htimes).
  exists added, s'. split; [exact Hrun |].
  split; [unfold cycle, bind; rewrite Hrun; reflexivity |].
  split; [exact Hrows |]. split; [exact Hall |].
  intros i r Hi start. split; [exact (Htimes i r Hi) |].
  intros Hclock. rewrite (Htimes i r Hi). apply elapsed_nonneg, Hclock.
Qed.

Lemma one_row_per_check_witness :
  exists added s',
    for_each [posts; users] (check world_first_times_out) started = (Ok tt, s') /\
    cycle world_first_times_out [posts; users] started =
      (Ok tt, emit (Sleep CHECK_INTERVAL) s') /\
    table_rows (database s') = rows empty_table ++ added /\
    Forall2 (fun api r => api !! "url" = Some (endpoint r)) [posts; users] added /\
    (forall (i : nat) (r : Row),
       added !! i = Some r ->
       let start := (clock_reads started + 3 * i)%nat in
       response_time r =
         (seconds_of (wall_clock world_first_times_out (S start)) -
          seconds_of (wall_clock world_first_times_out start))%Q /\
       (0 <= response_time r)%Q).
Proof.
  destruct (one_row_per_check world_first_times_out [posts; users] started empty_table)
    as (added & s' & Hrun & Hcycle & Hrows & Hall & Htimes).
  - repeat constructor; eexists; reflexivity.
  - reflexivity.
  - reflexivity.
  - exists added, s'. repeat (split; [assumption |]).
    intros i r Hi start. destruct (Htimes i r Hi) as [Hdiff Hpos].
    split; [exact Hdiff |]. apply Hpos. simpl. unfold steady_clock. lia.
Defined.

(** C6, counterexample.  All writes go through, but the system clock is set
    back by two seconds while the request is under way: the one row the
    check records has a response time of -2 seconds. *)
Lemma response_time_counterexample :
  (forall n, sqlite world_clock_set_back n = DbOk) /\
  exists r,
    table_rows (database (snd (cycle world_clock_set_back [posts] started))) = [r] /\
    (response_time r == -2 # 1)%Q /\
    (response_time r < 0)%Q.
Proof.
  split; [reflexivity |]. eexists. split; [reflexivity |]. split; reflexivity.
Qed.

(** ** The newest rows (C4) *)

Lemma insert_row_wf p t : table_wf t -> table_wf (insert_row p t).
Proof.
  intros [Hsorted Hbound]. unfold table_wf, insert_row. simpl. split.
  - apply StronglySorted_app. split; [| split]; [| assumption | repeat constructor].
    intros x1 x2 H1 H2. apply list_elem_of_singleton in H2 as ->.
    rewrite Forall_forall in Hbound. specialize (Hbound _ H1).
    destruct p as [[[[[[ts ep] meth] rt] sc] ok] err]. simpl. lia.
  - apply Forall_app. split.
    + eapply Forall_impl; [exact Hbound |]. simpl. intros; lia.
    + constructor; [| constructor].
      destruct p as [[[[[[ts ep] meth] rt] sc] ok] err]. simpl. lia.
Qed.

Lemma inserts_wf ps t : table_wf t -> table_wf (inserts ps t).
Proof.
  revert t. induction ps as [| p ps IH]; intros t Hwf; [exact Hwf |].
  apply IH, insert_row_wf, Hwf.
Qed.

Lemma inserts_rows ps t :
  rows (inserts ps t) = rows t ++ numbered (seq t + 1) ps /\
  seq (inserts ps t) = seq t + Z.of_nat (length ps).
Proof.
  revert t. induction ps as [| p ps IH]; intros t; simpl.
  - rewrite app_nil_r. split; [reflexivity | lia].
  - destruct (IH (insert_row p t)) as [-> ->]. simpl.
    rewrite <- app_assoc. split; [reflexivity | lia].
Qed.

Lemma length_numbered i ps : length (numbered i ps) = length ps.
Proof. revert i. induction ps as [| p ps IH]; simpl; intros i; [| rewrite IH]; reflexivity. Qed.

Lemma insert_desc_last r l :
  Forall (fun x => rowid r < rowid x) l -> insert_desc r l = l ++ [r].
Proof.
  induction 1 as [| x l Hx _ IH]; simpl; [reflexivity |].
  destruct (rowid x <=? rowid r) eqn:Hle; [apply Z.leb_le in Hle; lia |].
  rewrite IH. reflexivity.
Qed.

Lemma order_by_id_desc_sorted l :
  StronglySorted (fun a b => rowid a < rowid b) l -> order_by_id_desc l = reverse l.
Proof.
  induction 1 as [| x l _ IH Hx]; [reflexivity |].
  unfold order_by_id_desc in *. simpl. rewrite IH, reverse_cons.
  apply insert_desc_last. apply Forall_reverse. exact Hx.
Qed.

Lemma reverse_descending l :
  StronglySorted (fun a b => rowid a < rowid b) l ->
  StronglySorted (fun a b => rowid b < rowid a) (reverse l).
Proof.
  induction 1 as [| x l _ IH Hx]; [constructor |].
  rewrite reverse_cons. apply StronglySorted_app.
  split; [| split]; [| assumption | repeat constructor].
  intros x1 x2 H1 H2. apply list_elem_of_singleton in H2 as ->.
  rewrite elem_of_reverse in H1. rewrite Forall_forall in Hx. exact (Hx _ H1).
Qed.

Lemma take_descending n (l : list Row) :
  StronglySorted (fun a b => rowid b < rowid a) l ->
  StronglySorted (fun a b => rowid b < rowid a) (take n l).
Proof.
  intros H. rewrite <- (take_drop n l) in H.
  apply StronglySorted_app in H. tauto.
Qed.

(** C4.  On every table the program can have built, and for every limit
    [n], the query returns at most [n] rows: the [n] newest by order of
    insertion, newest first, which is the order of strictly falling ids; the
    timestamps play no part.  After [k <= n] inserts into a table that held
    no rows it returns exactly the rows of those inserts, last insert
    first. *)
Theorem recent_newest_first (n : nat) (t0 : Table) (ps : list Params) :
  table_wf t0 ->
  let t := inserts ps t0 in
  rows t = rows t0 ++ numbered (seq t0 + 1) ps /\
  (length (select_recent n t) <= n)%nat /\
  select_recent n t = take n (reverse (rows t)) /\
  StronglySorted (fun a b => rowid b < rowid a) (select_recent n t) /\
  (rows t0 = [] -> (length ps <= n)%nat ->
   select_recent n t = reverse (numbered (seq t0 + 1) ps)).
Proof.
  intros Hwf t.
  assert (Ht : table_wf t) by apply inserts_wf, Hwf.
  assert (Hrecent : select_recent n t = take n (reverse (rows t))).
  { unfold select_recent. rewrite order_by_id_desc_sorted by apply Ht. reflexivity. }
  destruct (inserts_rows ps t0) as [Hrows _]. fold t in Hrows.
  split; [exact Hrows |].
  split; [rewrite Hrecent, length_take; apply Nat.le_min_l |].
  split; [exact Hrecent |].
  split; [rewrite Hrecent; apply take_descending, reverse_descending, Ht |].
  intros Hempty Hk. rewrite Hrecent, Hrows, Hempty. simpl.
  apply take_ge. rewrite length_reverse, length_numbered. exact Hk.
Qed.

Lemma empty_table_wf : table_wf empty_table.
Proof. split; constructor. Qed.

Lemma recent_newest_first_witness :
  let t := inserts backdated empty_table in
  rows t = rows empty_table ++ numbered (seq empty_table + 1) backdated /\
  (length (select_recent 50 t) <= 50)%nat /\
  select_recent 50 t = take 50 (reverse (rows t)) /\
  StronglySorted (fun a b => rowid b < rowid a) (select_recent 50 t) /\
  select_recent 50 t = reverse (numbered (seq empty_table + 1) backdated).
Proof.
  destruct (recent_newest_first 50 empty_table backdated empty_table_wf)
    as (Hrows & Hlen & Htake & Hsorted & Hall).
  repeat (split; [assumption |]).
  apply Hall; [reflexivity | simpl; lia].
Defined.

(** The newest two of three rows, the last of which carries the oldest
    timestamp: the order is that of the ids. *)
Example recent_ignores_timestamps :
  (fun r => (rowid r, timestamp r)) <$> select_recent 2 (inserts backdated empty_table) =
  [(3, "2025-11-03T18:59:58"); (2, "2025-11-03T19:00:09")].
Proof. reflexivity. Qed.

(** *** Invariants of the table along the program *)

Lemma init_db_eq (w : World) (s : State) :
  init_db w s =
  match sqlite w (connections s) with
  | DbOk =>
      (Ok tt, set_database (Some (default empty_table (database s))) (count_connection s))
  | DbConnectError e | DbWriteError e => (Raise e, count_connection s)
  end.
Proof.
  unfold init_db, sqlite3_connect, execute_commit, bind.
  destruct s as [db k q c tr]; simpl.
  destruct (sqlite w c), db; reflexivity.
Qed.

Section Invariant.

Variable w : World.
Variable P : Table -> Prop.
Hypothesis P_empty : P empty_table.
Hypothesis P_insert :
  forall ts ep meth rt sc ok err t,
    ok = 1 \/ ok = 0 -> P t -> P (insert_row (ts, ep, meth, rt, sc, ok, err) t).

Lemma check_keeps api s :
  holds_on P (database s) -> holds_on P (database (snd (check w api s))).
Proof.
  intros HP. destruct (api !! "url") as [url |] eqn:Hurl.
  - destruct (check_effect w api url s Hurl)
      as (res & s' & -> & _ &
          [(e & _ & Hsame) | (t & rt & sc & ok & err & _ & Ht & _ & Hok & Hdb)]);
      simpl.
    + rewrite Hsame. exact HP.
    + rewrite Hdb. rewrite Ht in HP. simpl. apply P_insert; assumption.
  - unfold check, getitem, bind. rewrite Hurl. exact HP.
Qed.

Lemma for_each_check_keeps endpoints s :
  holds_on P (database s) ->
  holds_on P (database (snd (for_each endpoints (check w) s))).
Proof.
  revert s. induction endpoints as [| api rest IH]; intros s HP; [exact HP |].
  rewrite for_each_cons. pose proof (check_keeps api s HP) as Hstep.
  destruct (check w api s) as [[[] | e] s']; simpl in *; auto.
Qed.

Lemma cycle_keeps endpoints s :
  holds_on P (database s) -> holds_on P (database (snd (cycle w endpoints s))).
Proof.
  intros HP. unfold cycle, bind, time_sleep.
  pose proof (for_each_check_keeps endpoints s HP) as Hstep.
  destruct (for_each endpoints (check w) s) as [[[] | e] s']; simpl in *; exact Hstep.
Qed.

Lemma monitor_loop_keeps endpoints n s :
  holds_on P (database s) ->
  holds_on P (database (snd (monitor_loop w endpoints n s))).
Proof.
  revert s. induction n as [| n IH]; intros s HP; [exact HP |].
  simpl. unfold bind. pose proof (cycle_keeps endpoints s HP) as Hstep.
  destruct (cycle w endpoints s) as [[[] | e] s']; simpl in *; auto.
Qed.

Lemma init_db_keeps s :
  holds_on P (database s) -> holds_on P (database (snd (init_db w s))).
Proof.
  intros HP. rewrite init_db_eq.
  destruct (sqlite w (connections s)); simpl; try exact HP.
  destruct (database s); simpl; [exact HP | exact P_empty].
Qed.

Lemma main_keeps n s :
  holds_on P (database s) -> holds_on P (database (snd (main w n s))).
Proof.
  intros HP. unfold main, bind, monitor_api.
  pose proof (init_db_keeps s HP) as Hinit.
  destruct (init_db w s) as [[[] | e] s']; simpl in *; [| exact Hinit].
  apply monitor_loop_keeps, Hinit.
Qed.

End Invariant.

Lemma insert_row_flagged p t :
  snd (fst p) = 1 \/ snd (fst p) = 0 -> table_flagged t -> table_flagged (insert_row p t).
Proof.
  destruct p as [[[[[[ts ep] meth] rt] sc] ok] err]. simpl. intros Hok Ht.
  unfold table_flagged, insert_row. simpl. apply Forall_app. split; [exact Ht |].
  constructor; [simpl; tauto | constructor].
Qed.

(** Whatever the surroundings do, on a fresh file or on one the program
    wrote, [main] keeps the ids in order of insertion and the flags 0 or
    1. *)
Lemma main_wf (w : World) (n : nat) (s : State) :
  holds_on table_wf (database s) -> holds_on table_wf (database (snd (main w n s))).
Proof.
  apply main_keeps; [apply empty_table_wf |].
  intros. apply insert_row_wf. assumption.
Qed.

Lemma main_flagged (w : World) (n : nat) (s : State) :
  holds_on table_flagged (database s) ->
  holds_on table_flagged (database (snd (main w n s))).
Proof.
  apply main_keeps; [constructor |].
  intros. apply insert_row_flagged; assumption.
Qed.

(** ** Creating the table (C8) *)

(** C8.  [init_db] makes sure the table exists and keeps what is stored.
    When its database session works it returns and the table is there, the
    one that existed, rows and counter untouched, or else a new empty one;
    when the session fails it raises that exception and leaves the file as
    it was.  A second call right after behaves the same: whatever the two
    sessions do, a table that existed is left as it is by one call and by
    two, no row appears in a file that had none, and after a call that
    returned a second call changes nothing. *)
Theorem init_db_keeps_records (w : World) (s : State) :
  let r1 := init_db w s in
  let r2 := init_db w (snd r1) in
  match sqlite w (connections s) with
  | DbOk =>
      fst r1 = Ok tt /\
      database (snd r1) = Some (default empty_table (database s))
  | DbConnectError e | DbWriteError e =>
      fst r1 = Raise e /\ database (snd r1) = database s
  end /\
  match sqlite w (connections (snd r1)) with
  | DbOk =>
      fst r2 = Ok tt /\
      database (snd r2) = Some (default empty_table (database (snd r1)))
  | DbConnectError e | DbWriteError e =>
      fst r2 = Raise e /\ database (snd r2) = database (snd r1)
  end /\
  match database s with
  | Some t => database (snd r1) = Some t /\ database (snd r2) = Some t
  | None => table_rows (database (snd r1)) = [] /\ table_rows (database (snd r2)) = []
  end /\
  match fst r1 with
  | Ok _ => is_Some (database (snd r1)) /\ database (snd r2) = database (snd r1)
  | Raise _ => database (snd r1) = database s
  end.
Proof.
  simpl. rewrite !init_db_eq.
  destruct s as [db k q c tr]; simpl.
  destruct (sqlite w c); simpl; destruct (sqlite w (S c)); simpl;
    destruct db; simpl; repeat split; eauto.
Qed.

Example init_db_on_started :
  database (snd (init_db (world_answering 200) started)) = database started.
Proof. reflexivity. Qed.

(** ** The summary (C3) *)

Lemma sum_case_filter v g :
  sum_case v g = Z.of_nat (length (filter (fun r => success r = v) g)).
Proof.
  induction g as [| r g IH]; simpl; [reflexivity |].
  rewrite filter_cons, IH.
  destruct (decide (success r = v)) as [-> | Hne].
  - rewrite Z.eqb_refl. simpl length. lia.
  - apply Z.eqb_neq in Hne. rewrite Hne. lia.
Qed.

Lemma sum_case_total g :
  Forall (fun r => success r = 0 \/ success r = 1) g ->
  sum_case 1 g + sum_case 0 g = Z.of_nat (length g).
Proof.
  induction 1 as [| r g [Hr | Hr] _ IH]; simpl; [reflexivity | |];
    rewrite Hr; simpl; lia.
Qed.

Lemma sum_case_perm v g g' : g ≡ₚ g' -> sum_case v g = sum_case v g'.
Proof. induction 1; simpl; lia. Qed.

Lemma sum_response_time_perm g g' :
  g ≡ₚ g' -> (sum_response_time g == sum_response_time g')%Q.
Proof.
  induction 1 as [| x l l' _ IH | x y l | l l' l'' _ IH1 _ IH2]; simpl.
  - reflexivity.
  - rewrite IH. reflexivity.
  - ring.
  - rewrite IH1. exact IH2.
Qed.

Lemma sum_response_time_fmap g :
  sum_response_time g = foldr Qplus 0%Q (response_time <$> g).
Proof. induction g as [| r g IH]; simpl; [| rewrite IH]; reflexivity. Qed.

Lemma filter_keys_unique {A B} `{EqDecision A} (f : A -> B) (key : B -> A)
    (l : list A) (x : A) :
  (forall y, key (f y) = y) ->
  NoDup l -> x ∈ l ->
  filter (fun b => key b = x) (f <$> l) = [f x].
Proof.
  intros Hkey Hnodup. induction Hnodup as [| y l Hy _ IH]; intros Hin.
  - apply elem_of_nil in Hin. contradiction.
  - rewrite fmap_cons, filter_cons, Hkey.
    destruct (decide (y = x)) as [-> | Hne].
    + f_equal. clear IH Hin. induction l as [| z l IHl]; [reflexivity |].
      rewrite fmap_cons, filter_cons, Hkey.
      apply not_elem_of_cons in Hy as [Hz Hy].
      destruct (decide (z = x)); [congruence | auto].
    + apply elem_of_cons in Hin as [-> | Hin]; [contradiction | auto].
Qed.

(** C3.  For every endpoint with at least one row the summary has exactly
    one line; its [total] is the number of rows of that endpoint, its
    successes and failures are the numbers of those rows with [success] 1
    and 0 and add up to the total, and its average is the sum of the
    response times of all those rows, failures included, divided by the
    total.  Three successes of 0.1, 0.2 and 0.3 seconds and one failure of
    one second give total 4, successes 3, failures 1 and average 0.4. *)
Theorem summary_aggregates (t : Table) (ep : string) :
  table_flagged t ->
  ep ∈ endpoint <$> rows t ->
  let records := filter (fun r => endpoint r = ep) (rows t) in
  exists sr a,
    filter (fun x => s_endpoint x = ep) (select_summary t) = [sr] /\
    total sr = Z.of_nat (length records) /\
    0 < total sr /\
    successes sr = Z.of_nat (length (filter (fun r => success r = 1) records)) /\
    failures sr = Z.of_nat (length (filter (fun r => success r = 0) records)) /\
    successes sr + failures sr = total sr /\
    avg_time sr = Some a /\
    (a == mean (response_time <$> records))%Q /\
    (forall g,
       records ≡ₚ g ->
       Forall2 (fun r x => (response_time r == fst x)%Q /\ success r = snd x) g
               [(1 # 10, 1); (2 # 10, 1); (3 # 10, 1); (1 # 1, 0)] ->
       total sr = 4 /\ successes sr = 3 /\ failures sr = 1 /\ (a == 4 # 10)%Q).
Proof.
  intros Hbool Hin records. unfold table_flagged in Hbool.
  assert (Hne : records <> []).
  { apply list_elem_of_fmap in Hin as (r & -> & Hr).
    intros Hnil. assert (Hr' : r ∈ records) by (apply list_elem_of_filter; auto).
    rewrite Hnil in Hr'. apply elem_of_nil in Hr'. exact Hr'. }
  assert (Hrec : Forall (fun r => success r = 0 \/ success r = 1) records).
  { apply Forall_forall. intros r Hr. apply list_elem_of_filter in Hr as [_ Hr].
    rewrite Forall_forall in Hbool. auto. }
  exists (aggregate ep records), (sum_response_time records / inject_Z (Z.of_nat (length records)))%Q.
  split.
  { unfold select_summary, group_keys, group_of.
    apply (filter_keys_unique (fun k => aggregate k (filter (fun r => endpoint r = k) (rows t)))
             s_endpoint); [reflexivity | apply NoDup_remove_dups |].
    apply elem_of_remove_dups, Hin. }
  simpl. split; [reflexivity |].
  split; [destruct records; [congruence | simpl; lia] |].
  split; [apply sum_case_filter |].
  split; [apply sum_case_filter |].
  split; [apply sum_case_total, Hrec |].
  split; [destruct records; [congruence | reflexivity] |].
  split; [unfold mean; rewrite sum_response_time_fmap, length_fmap; reflexivity |].
  intros g Hperm Hg.
  rewrite (sum_case_perm 1 _ _ Hperm), (sum_case_perm 0 _ _ Hperm).
  rewrite (sum_response_time_perm _ _ Hperm), (Permutation_length Hperm).
  repeat match goal with
         | H : Forall2 _ _ (_ :: _) |- _ =>
             apply Forall2_cons_inv_r in H as (? & ? & [? ?] & ? & ->)
         | H : Forall2 _ _ [] |- _ => apply Forall2_nil_inv_r in H as ->
         end.
  simpl in *. repeat match goal with H : success _ = _ |- _ => rewrite H end.
  repeat match goal with H : (response_time _ == _)%Q |- _ => rewrite H end.
  repeat split; reflexivity.
Qed.

Lemma summary_aggregates_witness :
  let t := inserts scenario empty_table in
  let records := filter (fun r => endpoint r = "https://api.test/posts") (rows t) in
  exists sr a,
    filter (fun x => s_endpoint x = "https://api.test/posts") (select_summary t) = [sr] /\
    total sr = Z.of_nat (length records) /\
    0 < total sr /\
    successes sr = Z.of_nat (length (filter (fun r => success r = 1) records)) /\
    failures sr = Z.of_nat (length (filter (fun r => success r = 0) records)) /\
    successes sr + failures sr = total sr /\
    avg_time sr = Some a /\
    (a == mean (response_time <$> records))%Q /\
    total sr = 4 /\ successes sr = 3 /\ failures sr = 1 /\ (a == 4 # 10)%Q.
Proof.
  intros t records.
  destruct (summary_aggregates t "https://api.test/posts")
    as (sr & a & Hline & Htotal & Hpos & Hsucc & Hfail & Hsum & Havg & Hmean & Hscenario).
  - repeat (constructor; [first [left; reflexivity | right; reflexivity] |]).
    constructor.
  - simpl. constructor.
  - exists sr, a. repeat (split; [assumption |]).
    eapply Hscenario.
    + vm_compute. apply perm_skip. apply (Permutation_app_comm [_] [_; _]).
    + simpl. repeat (constructor; [split; reflexivity |]). constructor.
Defined.

(** ** The route *)

(** What the dashboard renders: the fifty newest rows and the summary of the
    table as it is when the request comes in. *)
Lemma dashboard_ok (w : World) (s : State) (t : Table) :
  sqlite w (connections s) = DbOk ->
  database s = Some t ->
  dashboard w s = (Ok (select_recent 50 t, select_summary t), count_connection s).
Proof.
  intros Hdb Ht. unfold dashboard, sqlite3_connect, bind. rewrite Hdb. simpl.
  rewrite Ht. reflexivity.
Qed.

Example dashboard_after_one_cycle :
  match (cycle world_first_times_out [posts; users] >> dashboard world_first_times_out) started with
  | (Ok (recent, summary), _) =>
      (fun r => (rowid r, endpoint r, status_code r, success r)) <$> recent =
        [(2, "https://api.test/users", 200, 1); (1, "https://api.test/posts", -1, 0)] /\
      (fun x => (s_endpoint x, total x, successes x, failures x)) <$> summary =
        [("https://api.test/posts", 1, 0, 1); ("https://api.test/users", 1, 1, 0)]
  | (Raise _, _) => False
  end.
Proof. vm_compute. split; reflexivity. Qed.

(** * Further properties of the program *)

(** ** The outcome of a check, in full *)

Lemma check_no_url (w : World) (api : gmap string string) (s : State) :
  api !! "url" = None -> check w api s = (Raise (mkExn KeyError "'url'"), s).
Proof. intros Hurl. unfold check, getitem, bind. rewrite Hurl. reflexivity. Qed.

Lemma stamp_shape (w : World) (n : nat) : iso8601_seconds (stamp w n) = true.
Proof. apply isoformat_shape. Qed.

Lemma inserts_nil_fmap (db : option Table) : inserts [] <$> db = db.
Proof. destruct db; reflexivity. Qed.

Lemma inserts_app ps1 ps2 t : inserts (ps1 ++ ps2) t = inserts ps2 (inserts ps1 t).
Proof. apply foldl_app. Qed.

Lemma inserts_app_fmap ps1 ps2 (db : option Table) :
  inserts ps2 <$> (inserts ps1 <$> db) = inserts (ps1 ++ ps2) <$> db.
Proof. destruct db; simpl; [rewrite inserts_app |]; reflexivity. Qed.

(** Every way a check can go: what it inserts, what it adds to the trace,
    how its result, its row and its log line hang together. *)
Lemma check_outcome (w : World) (api : gmap string string) (s : State) :
  exists ps evs,
    database (snd (check w api s)) = inserts ps <$> database s /\
    trace (snd (check w api s)) = trace s ++ evs /\
    requests_made (snd (check w api s)) = (requests_made s + length (requests_of evs))%nat /\
    Forall monitor_row ps /\
    sleeps_of evs = [] /\
    match fst (check w api s) with
    | Ok _ =>
        exists url ts rt sc ok err line,
          api !! "url" = Some url /\
          is_Some (database s) /\
          ps = [(ts, url, method_of api, rt, sc, ok, err)] /\
          evs = [Request (method_of api) url; line] /\
          log_matches line (ts, url, method_of api, rt, sc, ok, err)
    | Raise e =>
        ps = [] /\
        ((api !! "url" = None /\ evs = [] /\ snd (check w api s) = s) \/
         (exists url, api !! "url" = Some url /\ evs = [Request (method_of api) url]))
    end.
Proof.
  destruct (api !! "url") as [url |] eqn:Hurl.
  2: { rewrite (check_no_url w api s Hurl). exists [], []. simpl.
       rewrite inserts_nil_fmap, app_nil_r, Nat.add_0_r. repeat split; auto. }
  pose proof (upper_no_lower (default "GET" (api !! "method"))) as Hupper.
  fold (method_of api) in Hupper.
  destruct (http w (requests_made s) (method_of api) url) as [st | e] eqn:Hhttp;
    destruct (write_error (sqlite w (connections s)) (database s)) as [e1 |] eqn:Hdb.
  - destruct (write_error (sqlite w (S (connections s))) (database s)) as [e2 |] eqn:Hdb'.
    + rewrite (check_responded_lost w api url st e1 e2 s) by assumption.
      exists [], [Request (method_of api) url]. simpl.
      rewrite inserts_nil_fmap. repeat split; eauto; try lia.
    + destruct (write_error_none _ _ Hdb') as [t Ht].
      rewrite (check_responded_retried w api url st e1 s) by assumption.
      eexists [_], [_; _]. simpl. rewrite Ht. simpl.
      split; [reflexivity |]. split; [reflexivity |]. split; [simpl; lia |].
      split; [repeat constructor; auto using stamp_shape; right; eauto |].
      split; [reflexivity |].
      eexists _, _, _, _, _, _, _. repeat split; eauto.
  - destruct (write_error_none _ _ Hdb) as [t Ht].
    rewrite (check_responded_stored w api url st s) by assumption.
    eexists [_], [_; _]. simpl. rewrite Ht. simpl.
    split; [reflexivity |]. split; [reflexivity |]. split; [simpl; lia |].
    split; [repeat constructor; auto using stamp_shape |].
    split; [reflexivity |].
    eexists _, _, _, _, _, _, _. repeat split; eauto.
  - rewrite (check_failed_lost w api url e e1 s) by assumption.
    exists [], [Request (method_of api) url]. simpl.
    rewrite inserts_nil_fmap. repeat split; eauto; try lia.
  - destruct (write_error_none _ _ Hdb) as [t Ht].
    rewrite (check_failed_stored w api url e s) by assumption.
    eexists [_], [_; _]. simpl. rewrite Ht. simpl.
    split; [reflexivity |]. split; [reflexivity |]. split; [simpl; lia |].
    split; [repeat constructor; auto using stamp_shape; right; eauto |].
    split; [reflexivity |].
    eexists _, _, _, _, _, _, _. repeat split; eauto.
Qed.

Lemma requests_of_app evs1 evs2 :
  requests_of (evs1 ++ evs2) = requests_of evs1 ++ requests_of evs2.
Proof. apply omap_app. Qed.

Lemma sleeps_of_app evs1 evs2 :
  sleeps_of (evs1 ++ evs2) = sleeps_of evs1 ++ sleeps_of evs2.
Proof. apply omap_app. Qed.

Lemma events_of_check m u line p evs :
  log_matches line p ->
  requests_of (Request m u :: line :: evs) = (m, u) :: requests_of evs /\
  sleeps_of (Request m u :: line :: evs) = sleeps_of evs.
Proof.
  destruct p as [[[[[[ts ep] meth] rt] sc] ok] err].
  destruct line; simpl; intros H; try contradiction; split; reflexivity.
Qed.

Lemma planned_cons api rest url :
  api !! "url" = Some url ->
  omap planned_request (api :: rest) = (method_of api, url) :: omap planned_request rest.
Proof. intros H. simpl. unfold planned_request at 1. rewrite H. reflexivity. Qed.

(** ** The outcome of a pass over the endpoints, of a cycle, of the loop *)

Lemma for_each_outcome (w : World) (endpoints : list (gmap string string)) (s : State) :
  exists ps evs,
    database (snd (for_each endpoints (check w) s)) = inserts ps <$> database s /\
    trace (snd (for_each endpoints (check w) s)) = trace s ++ evs /\
    requests_made (snd (for_each endpoints (check w) s)) =
      (requests_made s + length (requests_of evs))%nat /\
    Forall monitor_row ps /\
    sleeps_of evs = [] /\
    requests_of evs `prefix_of` omap planned_request endpoints /\
    (length ps <= length (requests_of evs))%nat /\
    (forall u, fst (for_each endpoints (check w) s) = Ok u ->
       requests_of evs = omap planned_request endpoints /\
       length ps = length endpoints /\
       Forall (fun api => is_Some (api !! "url")) endpoints).
Proof.
  revert s. induction endpoints as [| api rest IH]; intros s.
  - exists [], []. simpl. rewrite inserts_nil_fmap, app_nil_r, Nat.add_0_r.
    repeat split; auto. 
  - rewrite for_each_cons.
    destruct (check_outcome w api s) as (ps1 & evs1 & Hdb1 & Htr1 & Hrq1 & Hrows1 & Hsl1 & Hres).
    destruct (check w api s) as [[[] | e] s1]; cbn [fst snd] in *.
    + destruct Hres as (url & ts & rt & sc & ok & err & line & Hurl & _ & -> & -> & Hline).
      destruct (IH s1) as (ps2 & evs2 & Hdb2 & Htr2 & Hrq2 & Hrows2 & Hsl2 & Hpre & Hlen & Hok).
      destruct (events_of_check (method_of api) url line _ evs2 Hline) as [Hl1 Hl2].
      destruct (events_of_check (method_of api) url line _ [] Hline) as [Hl3 _].
      eexists (_ :: ps2), (_ :: _ :: evs2).
      rewrite Hdb2, Hdb1, inserts_app_fmap, Htr2, Htr1, Hrq2, Hrq1, <- app_assoc.
      rewrite Hl1, Hl2, Hl3, (planned_cons api rest url Hurl).
      split; [reflexivity |]. split; [reflexivity |]. split; [simpl; lia |].
      split; [constructor; [inversion Hrows1; assumption | exact Hrows2] |].
      split; [exact Hsl2 |].
      split; [apply prefix_cons, Hpre |].
      split; [simpl; lia |].
      intros u Hu. destruct (Hok u Hu) as (Hall & Hcount & Hurls).
      split; [f_equal; exact Hall |]. split; [simpl; lia |].
      constructor; [eauto | exact Hurls].
    + destruct Hres as [-> Hres]. exists [], evs1.
      split; [exact Hdb1 |]. split; [exact Htr1 |]. split; [exact Hrq1 |].
      split; [constructor |]. split; [exact Hsl1 |].
      split; [| split; [simpl; lia | intros u Hu; discriminate]].
      destruct Hres as [(Hurl & -> & _) | (url & Hurl & ->)].
      * apply prefix_nil.
      * rewrite (planned_cons api rest url Hurl). apply prefix_cons, prefix_nil.
Qed.

Lemma planned_length endpoints :
  (length (omap planned_request endpoints) <= length endpoints)%nat.
Proof.
  induction endpoints as [| api rest IH]; [simpl; lia |].
  cbn [omap list_omap length]. destruct (planned_request api); cbn [length]; lia.
Qed.

Lemma cycle_outcome (w : World) (endpoints : list (gmap string string)) (s : State) :
  exists ps evs,
    database (snd (cycle w endpoints s)) = inserts ps <$> database s /\
    trace (snd (cycle w endpoints s)) = trace s ++ evs /\
    requests_made (snd (cycle w endpoints s)) =
      (requests_made s + length (requests_of evs))%nat /\
    Forall monitor_row ps /\
    requests_of evs `prefix_of` omap planned_request endpoints /\
    (length ps <= length (requests_of evs))%nat /\
    match fst (cycle w endpoints s) with
    | Ok _ =>
        requests_of evs = omap planned_request endpoints /\
        length ps = length endpoints /\
        Forall (fun api => is_Some (api !! "url")) endpoints /\
        sleeps_of evs = [CHECK_INTERVAL] /\
        last evs = Some (Sleep CHECK_INTERVAL)
    | Raise _ => sleeps_of evs = []
    end.
Proof.
  destruct (for_each_outcome w endpoints s)
    as (ps & evs & Hdb & Htr & Hrq & Hrows & Hsl & Hpre & Hlen & Hok).
  unfold cycle, bind, time_sleep.
  destruct (for_each endpoints (check w) s) as [[[] | e] s1]; cbn [fst snd] in *.
  - destruct (Hok tt eq_refl) as (Hall & Hcount & Hurls).
    exists ps, (evs ++ [Sleep CHECK_INTERVAL]).
    rewrite requests_of_app, sleeps_of_app, Hsl, last_snoc. simpl.
    rewrite app_nil_r, Htr, app_assoc.
    repeat split; auto.
  - exists ps, evs. repeat split; auto.
Qed.

Lemma monitor_loop_outcome (w : World) (endpoints : list (gmap string string))
    (n : nat) (s : State) :
  exists ps evs,
    database (snd (monitor_loop w endpoints n s)) = inserts ps <$> database s /\
    trace (snd (monitor_loop w endpoints n s)) = trace s ++ evs /\
    requests_made (snd (monitor_loop w endpoints n s)) =
      (requests_made s + length (requests_of evs))%nat /\
    Forall monitor_row ps /\
    (length ps <= length (requests_of evs))%nat /\
    (length (requests_of evs) <= n * length endpoints)%nat /\
    (length (sleeps_of evs) <= n)%nat /\
    match fst (monitor_loop w endpoints n s) with
    | Ok _ =>
        requests_of evs = concat (replicate n (omap planned_request endpoints)) /\
        length ps = (n * length endpoints)%nat /\
        sleeps_of evs = replicate n CHECK_INTERVAL
    | Raise _ => (length (sleeps_of evs) < n)%nat
    end.
Proof.
  revert s. induction n as [| n IH]; intros s.
  - exists [], []. simpl. rewrite inserts_nil_fmap, app_nil_r, Nat.add_0_r.
    repeat split; auto.
  - simpl monitor_loop. unfold bind.
    destruct (cycle_outcome w endpoints s)
      as (ps1 & evs1 & Hdb1 & Htr1 & Hrq1 & Hrows1 & Hpre1 & Hlen1 & Hres1).
    pose proof (prefix_length _ _ Hpre1) as Hbound.
    pose proof (planned_length endpoints) as Hplanned.
    destruct (cycle w endpoints s) as [[[] | e] s1]; cbn [fst snd] in *.
    + destruct Hres1 as (Hall1 & Hcount1 & _ & Hsl1 & _).
      destruct (IH s1) as (ps2 & evs2 & Hdb2 & Htr2 & Hrq2 & Hrows2 & Hlen2 & Hreq2 & Hsl2 & Hres2).
      exists (ps1 ++ ps2), (evs1 ++ evs2).
      rewrite Hdb2, Hdb1, inserts_app_fmap, Htr2, Htr1, Hrq2, Hrq1, <- app_assoc.
      rewrite requests_of_app, sleeps_of_app, !length_app, Hsl1.
      split; [reflexivity |]. split; [reflexivity |]. split; [lia |].
      split; [apply Forall_app; auto |].
      split; [lia |]. split; [simpl; lia |]. split; [simpl; lia |].
      destruct (fst (monitor_loop w endpoints n s1)).
      * destruct Hres2 as (Hall2 & Hcount2 & Hsleeps2).
        rewrite Hall1, Hall2, Hsleeps2. simpl. repeat split; lia.
      * simpl. lia.
    + exists ps1, evs1. rewrite Hres1. simpl.
      repeat split; auto; lia.
Qed.

(** ** Exceptions that leave the loop *)

Lemma for_each_app {A} (xs ys : list A) (body : A -> M unit) s s1 :
  for_each xs body s = (Ok tt, s1) ->
  for_each (xs ++ ys) body s = for_each ys body s1.
Proof.
  revert s. induction xs as [| x xs IH]; intros s; simpl.
  - unfold ret. intros [= ->]. reflexivity.
  - unfold bind. destruct (body x s) as [[[] | e] s']; [apply (IH s') | discriminate].
Qed.

(** An exception that leaves a check leaves the pass, the cycle and the
    loop, with the state that check left. *)
Lemma abort_at (w : World) (before after : list (gmap string string))
    (api : gmap string string) (n : nat) (e : Exn) (s s1 s2 : State) :
  for_each before (check w) s = (Ok tt, s1) ->
  check w api s1 = (Raise e, s2) ->
  cycle w (before ++ api :: after) s = (Raise e, s2) /\
  monitor_loop w (before ++ api :: after) (S n) s = (Raise e, s2).
Proof.
  intros Hbefore Hcheck.
  assert (Hcycle : cycle w (before ++ api :: after) s = (Raise e, s2)).
  { unfold cycle, bind. rewrite (for_each_app _ _ _ _ _ Hbefore), for_each_cons, Hcheck.
    reflexivity. }
  split; [exact Hcycle |]. simpl. unfold bind. rewrite Hcycle. reflexivity.
Qed.

(** X1.  An endpoint whose configuration has no ["url"] makes the loop
    raise [KeyError('url')] when its turn comes: the endpoints before it are
    checked as usual, and from the state they leave nothing more happens, no
    request, no row, no log line, no sleep, no later endpoint, no later
    cycle. *)
Theorem missing_url_ends_loop (w : World) (before after : list (gmap string string))
    (api : gmap string string) (n : nat) (s s1 : State) :
  api !! "url" = None ->
  for_each before (check w) s = (Ok tt, s1) ->
  cycle w (before ++ api :: after) s = (Raise (mkExn KeyError "'url'"), s1) /\
  monitor_loop w (before ++ api :: after) (S n) s = (Raise (mkExn KeyError "'url'"), s1).
Proof.
  intros Hurl Hbefore. apply (abort_at w before after api n _ s s1 s1 Hbefore).
  apply check_no_url, Hurl.
Qed.

Lemma missing_url_ends_loop_witness :
  cycle (world_answering 200) ([posts] ++ nameless :: [users]) started =
    (Raise (mkExn KeyError "'url'"), snd (check (world_answering 200) posts started)) /\
  monitor_loop (world_answering 200) ([posts] ++ nameless :: [users]) 3 started =
    (Raise (mkExn KeyError "'url'"), snd (check (world_answering 200) posts started)).
Proof.
  apply (missing_url_ends_loop (world_answering 200) [posts] [users] nameless 2 started);
    reflexivity.
Defined.

(** X2.  A check raises in exactly three situations: the endpoint has no
    url (a [KeyError]); the request raises and the write of the handler
    raises; the request is answered and both the write of the success row
    and the write of the handler raise.  In the last two the exception is
    the one of the handler's write. *)
Theorem check_raises_iff (w : World) (api : gmap string string) (s : State) (e : Exn) :
  fst (check w api s) = Raise e <->
  (api !! "url" = None /\ e = mkExn KeyError "'url'") \/
  (exists url,
     api !! "url" = Some url /\
     ((exists e0,
         http w (requests_made s) (method_of api) url = Failed e0 /\
         write_error (sqlite w (connections s)) (database s) = Some e) \/
      (exists st e1,
         http w (requests_made s) (method_of api) url = Responded st /\
         write_error (sqlite w (connections s)) (database s) = Some e1 /\
         write_error (sqlite w (S (connections s))) (database s) = Some e))).
Proof.
  destruct (api !! "url") as [url |] eqn:Hurl.
  2: { rewrite (check_no_url w api s Hurl). simpl. split.
       - intros [= <-]. left. auto.
       - intros [[_ ->] | (url & Habs & _)]; [reflexivity | discriminate]. }
  assert (Hback :
    forall e2,
      (Some url = None /\ e = mkExn KeyError "'url'") \/
      (exists url0,
         Some url = Some url0 /\
         ((exists e0,
             http w (requests_made s) (method_of api) url0 = Failed e0 /\
             write_error (sqlite w (connections s)) (database s) = Some e) \/
          (exists st e1,
             http w (requests_made s) (method_of api) url0 = Responded st /\
             write_error (sqlite w (connections s)) (database s) = Some e1 /\
             write_error (sqlite w (S (connections s))) (database s) = Some e))) ->
      (forall e0, http w (requests_made s) (method_of api) url = Failed e0 ->
                  write_error (sqlite w (connections s)) (database s) = Some e2) ->
      (forall st, http w (requests_made s) (method_of api) url = Responded st ->
                  write_error (sqlite w (S (connections s))) (database s) = Some e2 /\
                  is_Some (write_error (sqlite w (connections s)) (database s))) ->
      e2 = e).
  { intros e2 [[Habs _] | (u & Hu & [(e0 & Hh & Hw) | (st & e1 & Hh & Hw1 & Hw2)])] Hf Hr;
      simplify_eq.
    - specialize (Hf _ Hh). congruence.
    - destruct (Hr _ Hh) as [Hw _]. congruence. }
  destruct (http w (requests_made s) (method_of api) url) as [st | e0] eqn:Hhttp;
    destruct (write_error (sqlite w (connections s)) (database s)) as [e1 |] eqn:Hdb.
  - destruct (write_error (sqlite w (S (connections s))) (database s)) as [e2 |] eqn:Hdb'.
    + rewrite (check_responded_lost w api url st e1 e2 s) by assumption. simpl. split.
      * intros [= <-]. right. exists url. split; [reflexivity |]. right. eauto.
      * intros H. f_equal. apply (Hback e2 H); [discriminate | eauto].
    + rewrite (check_responded_retried w api url st e1 s) by assumption. simpl. split.
      * discriminate.
      * intros [[Habs _] | (u & Hu & [(e' & Hh & _) | (st' & e1' & _ & _ & Hw)])];
          simplify_eq; congruence.
  - rewrite (check_responded_stored w api url st s) by assumption. simpl. split.
    + discriminate.
    + intros [[Habs _] | (u & Hu & [(e' & Hh & _) | (st' & e1' & _ & Hw & _)])];
        simplify_eq; congruence.
  - rewrite (check_failed_lost w api url e0 e1 s) by assumption. simpl. split.
    + intros [= <-]. right. exists url. split; [reflexivity |]. left. eauto.
    + intros H. f_equal. apply (Hback e1 H); [intros ? _; reflexivity | discriminate].
  - rewrite (check_failed_stored w api url e0 s) by assumption. simpl. split.
    + discriminate.
    + intros [[Habs _] | (u & Hu & [(e' & _ & Hw) | (st' & e1' & Hh & _)])];
        simplify_eq; congruence.
Qed.

(** X3.  When the request of an endpoint raises and the write of the
    handler raises too, that second exception ends [monitor_api]: the cycle
    and the loop, however many turns were to come, stop with it.  The table
    is as the endpoints before left it, the last event is the request of
    that endpoint, and there is no sleep after it. *)
Theorem handler_failure_ends_loop (w : World) (before after : list (gmap string string))
    (api : gmap string string) (url : string) (n : nat) (e e' : Exn) (s s1 : State) :
  for_each before (check w) s = (Ok tt, s1) ->
  api !! "url" = Some url ->
  http w (requests_made s1) (method_of api) url = Failed e ->
  write_error (sqlite w (connections s1)) (database s1) = Some e' ->
  exists s2,
    cycle w (before ++ api :: after) s = (Raise e', s2) /\
    monitor_loop w (before ++ api :: after) (S n) s = (Raise e', s2) /\
    database s2 = database s1 /\
    trace s2 = trace s1 ++ [Request (method_of api) url].
Proof.
  intros Hbefore Hurl Hhttp Hdb.
  pose proof (check_failed_lost w api url e e' s1 Hurl Hhttp Hdb) as Hcheck.
  eexists. destruct (abort_at w before after api n e' s s1 _ Hbefore Hcheck) as [Hc Hl].
  split; [exact Hc |]. split; [exact Hl |]. split; reflexivity.
Qed.

Lemma handler_failure_ends_loop_witness :
  exists s2,
    cycle world_timeout_locked ([] ++ posts :: [users]) started = (Raise database_locked, s2) /\
    monitor_loop world_timeout_locked ([] ++ posts :: [users]) 5 started =
      (Raise database_locked, s2) /\
    database s2 = database started /\
    trace s2 = trace started ++ [Request (method_of posts) "https://api.test/posts"].
Proof.
  apply (handler_failure_ends_loop world_timeout_locked [] [users] posts
           "https://api.test/posts" 4 read_timeout database_locked started started);
    reflexivity.
Defined.

(** ** The log line and the row of a check *)

Lemma round_half_even_near (x : Q) :
  (Qabs (inject_Z (round_half_even x) - x) <= 1 # 2)%Q.
Proof.
  unfold round_half_even.
  pose proof (Qfloor_le x) as Hlo. pose proof (Qlt_floor x) as Hhi.
  rewrite inject_Z_plus in Hhi.
  apply Qabs_case; intros _;
    destruct (Qcompare_spec (x - inject_Z (Qfloor x)) (1 # 2)) as [H | H | H];
    try destruct (Z.even (Qfloor x));
    rewrite ?inject_Z_plus; change (inject_Z 1) with 1%Q in *; lra.
Qed.

Lemma format_2f_near (x : Q) : (Qabs (format_2f x - x) <= 1 # 200)%Q.
Proof.
  unfold format_2f.
  pose proof (round_half_even_near (x * 100)) as H.
  set (r := round_half_even (x * 100)) in *.
  assert (Hr : (r # 100 == inject_Z r * (1 # 100))%Q)
    by (unfold Qeq, Qmult, inject_Z; simpl; lia).
  rewrite Hr. apply Qabs_Qle_condition in H. apply Qabs_Qle_condition.
  destruct H as [H1 H2]. split; lra.
Qed.

(** X4.  A check that returns has added one row and, after its request,
    one log line, and the two tell the same: an info line goes with a row of
    [success = 1] and no message, carries the status of the row and, as its
    elapsed time, the response time of the row as the format [.2f] prints
    it, less than a two-hundredth of a second off; an error line goes with
    a row of [success = 0], [status_code = -1] and the text of the line as
    message. *)
Theorem log_line_matches_row (w : World) (api : gmap string string) (s : State) :
  fst (check w api s) = Ok tt ->
  exists url r line,
    api !! "url" = Some url /\
    table_rows (database (snd (check w api s))) = table_rows (database s) ++ [r] /\
    trace (snd (check w api s)) = trace s ++ [Request (method_of api) url; line] /\
    endpoint r = url /\
    method r = method_of api /\
    match line with
    | LogInfo u st el =>
        u = url /\ success r = 1 /\ status_code r = st /\
        el = format_2f (response_time r) /\
        (Qabs (el - response_time r) <= 1 # 200)%Q /\
        error_message r = None
    | LogError u text =>
        u = url /\ success r = 0 /\ status_code r = -1 /\ error_message r = Some text
    | Request _ _ | Sleep _ => False
    end.
Proof.
  intros Hok.
  destruct (check_outcome w api s) as (ps & evs & Hdb & Htr & _ & _ & _ & Hres).
  rewrite Hok in Hres.
  destruct Hres as (url & ts & rt & sc & ok & err & line & Hurl & [t Ht] & -> & -> & Hline).
  exists url, (row_of (seq t + 1) (ts, url, method_of api, rt, sc, ok, err)), line.
  split; [exact Hurl |]. rewrite Hdb, Ht, Htr. simpl.
  split; [reflexivity |]. split; [reflexivity |]. split; [reflexivity |].
  split; [reflexivity |].
  destruct line; simpl in *; try contradiction.
  - destruct Hline as (-> & -> & -> & -> & ->).
    repeat split; try reflexivity. apply format_2f_near.
  - intuition congruence.
Qed.

Lemma log_line_matches_row_witness :
  exists url r line,
    posts !! "url" = Some url /\
    table_rows (database (snd (check (world_answering 404) posts started))) =
      table_rows (database started) ++ [r] /\
    trace (snd (check (world_answering 404) posts started)) =
      trace started ++ [Request (method_of posts) url; line] /\
    endpoint r = url /\
    method r = method_of posts /\
    match line with
    | LogInfo u st el =>
        u = url /\ success r = 1 /\ status_code r = st /\
        el = format_2f (response_time r) /\
        (Qabs (el - response_time r) <= 1 # 200)%Q /\
        error_message r = None
    | LogError u text =>
        u = url /\ success r = 0 /\ status_code r = -1 /\ error_message r = Some text
    | Request _ _ | Sleep _ => False
    end.
Proof.
  apply (log_line_matches_row (world_answering 404) posts started). reflexivity.
Defined.

(** ** Requests, sleeps and rows of a cycle and of the loop *)

Lemma planned_all endpoints :
  Forall (fun api => is_Some (api !! "url")) endpoints ->
  omap planned_request endpoints =
  (fun api => (method_of api, default "" (api !! "url"))) <$> endpoints.
Proof.
  induction 1 as [| api rest [url Hurl] _ IH]; [reflexivity |].
  rewrite (planned_cons api rest url Hurl), fmap_cons, IH, Hurl. reflexivity.
Qed.

(** X5.  The requests of a cycle go out in the configured order, one per
    endpoint, with the method in upper case: those of an interrupted cycle
    are a first part of that list, those of a cycle that returns are the
    whole list.  A cycle that returns ends on its one sleep of
    [CHECK_INTERVAL] seconds; an interrupted cycle does not sleep. *)
Theorem cycle_requests_in_order (w : World) (endpoints : list (gmap string string))
    (s : State) :
  exists evs,
    trace (snd (cycle w endpoints s)) = trace s ++ evs /\
    requests_of evs `prefix_of` omap planned_request endpoints /\
    match fst (cycle w endpoints s) with
    | Ok _ =>
        Forall (fun api => is_Some (api !! "url")) endpoints /\
        requests_of evs =
          (fun api => (method_of api, default "" (api !! "url"))) <$> endpoints /\
        sleeps_of evs = [CHECK_INTERVAL] /\
        last evs = Some (Sleep CHECK_INTERVAL)
    | Raise _ => sleeps_of evs = []
    end.
Proof.
  destruct (cycle_outcome w endpoints s)
    as (ps & evs & _ & Htr & _ & _ & Hpre & _ & Hres).
  exists evs. split; [exact Htr |]. split; [exact Hpre |].
  destruct (fst (cycle w endpoints s)); [| exact Hres].
  destruct Hres as (Hall & _ & Hurls & Hsl & Hlast).
  rewrite <- (planned_all endpoints Hurls). auto.
Qed.

Lemma table_rows_inserts (db : option Table) (ps : list Params) :
  exists added,
    table_rows (inserts ps <$> db) = table_rows db ++ added /\
    (length added <= length ps)%nat /\
    (is_Some db -> length added = length ps).
Proof.
  destruct db as [t |]; simpl.
  - destruct (inserts_rows ps t) as [-> _]. eexists. split; [reflexivity |].
    rewrite length_numbered. auto.
  - exists []. split; [reflexivity |]. split; [simpl; lia |].
    intros [? ?]. discriminate.
Qed.

(** X6.  A loop that comes back after [n] cycles has, in each of them,
    requested every endpoint once, added one row per request and slept
    once: [n] times the number of endpoints in requests and in new rows,
    [n] sleeps of [CHECK_INTERVAL] seconds. *)
Theorem loop_returns_after_full_cycles (w : World)
    (endpoints : list (gmap string string)) (n : nat) (s : State) (t : Table) :
  database s = Some t ->
  fst (monitor_loop w endpoints n s) = Ok tt ->
  exists added evs,
    table_rows (database (snd (monitor_loop w endpoints n s))) = rows t ++ added /\
    length added = (n * length endpoints)%nat /\
    trace (snd (monitor_loop w endpoints n s)) = trace s ++ evs /\
    length (requests_of evs) = (n * length endpoints)%nat /\
    requests_made (snd (monitor_loop w endpoints n s)) =
      (requests_made s + n * length endpoints)%nat /\
    sleeps_of evs = replicate n CHECK_INTERVAL.
Proof.
  intros Ht Hok.
  destruct (monitor_loop_outcome w endpoints n s)
    as (ps & evs & Hdb & Htr & Hrq & _ & Hlen & Hreq & _ & Hres).
  rewrite Hok in Hres. destruct Hres as (_ & Hcount & Hsl).
  destruct (table_rows_inserts (database s) ps) as (added & Hrows & _ & Hadded).
  exists added, evs. rewrite Hdb, Hrows, Ht, Hrq. simpl.
  assert (Hrequests : length (requests_of evs) = (n * length endpoints)%nat) by lia.
  rewrite Hrequests, Hadded by (rewrite Ht; eauto).
  repeat split; auto.
Qed.

Lemma loop_returns_after_full_cycles_witness :
  exists added evs,
    table_rows (database (snd (monitor_loop world_first_times_out [posts; users] 2 started))) =
      rows empty_table ++ added /\
    length added = (2 * length [posts; users])%nat /\
    trace (snd (monitor_loop world_first_times_out [posts; users] 2 started)) =
      trace started ++ evs /\
    length (requests_of evs) = (2 * length [posts; users])%nat /\
    requests_made (snd (monitor_loop world_first_times_out [posts; users] 2 started)) =
      (requests_made started + 2 * length [posts; users])%nat /\
    sleeps_of evs = replicate 2 CHECK_INTERVAL.
Proof.
  apply (loop_returns_after_full_cycles world_first_times_out [posts; users] 2 started
           empty_table); reflexivity.
Defined.

(** X7.  The loop only ever appends: whatever the surroundings do and
    however long it runs, the rows that were in the table stay where they
    were, unchanged, at the head of the table; the table is neither created
    nor dropped; and there are at most as many new rows as requests went
    out, at most one per endpoint and cycle. *)
Theorem monitor_appends_only (w : World) (endpoints : list (gmap string string))
    (n : nat) (s : State) :
  let s' := snd (monitor_loop w endpoints n s) in
  (is_Some (database s') <-> is_Some (database s)) /\
  table_rows (database s) `prefix_of` table_rows (database s') /\
  (length (table_rows (database s')) + requests_made s <=
   length (table_rows (database s)) + requests_made s')%nat /\
  (requests_made s' <= requests_made s + n * length endpoints)%nat.
Proof.
  destruct (monitor_loop_outcome w endpoints n s)
    as (ps & evs & Hdb & _ & Hrq & _ & Hlen & Hreq & _).
  destruct (table_rows_inserts (database s) ps) as (added & Hrows & Hadded & _).
  simpl. rewrite Hdb, Hrows, Hrq, length_app.
  split; [destruct (database s); simpl; split; intros [? ?]; eauto; discriminate |].
  split; [apply prefix_app_r; reflexivity |]. split; lia.
Qed.

(** ** What [main] does to the table *)

(** Either [init_db] raised and the file is as it was, or the table is the
    one that was there, or a new empty one, followed by inserts of the
    monitor. *)
Lemma main_database (w : World) (n : nat) (s : State) :
  match sqlite w (connections s) with
  | DbOk =>
      exists ps,
        Forall monitor_row ps /\
        database (snd (main w n s)) =
          Some (inserts ps (default empty_table (database s)))
  | DbConnectError e | DbWriteError e => main w n s = (Raise e, count_connection s)
  end.
Proof.
  unfold main, bind, monitor_api. rewrite init_db_eq.
  destruct (sqlite w (connections s)); try reflexivity.
  set (s1 := set_database _ _).
  destruct (monitor_loop_outcome w API_ENDPOINTS n s1)
    as (ps & evs & Hdb & _ & _ & Hrows & _).
  exists ps. split; [exact Hrows |]. rewrite Hdb. reflexivity.
Qed.

Lemma numbered_consistent i ps :
  Forall monitor_row ps -> Forall row_consistent (numbered i ps).
Proof.
  intros H. revert i. induction H as [| p ps Hp _ IH]; intros i; simpl; constructor; auto.
  destruct p as [[[[[[ts ep] meth] rt] sc] ok] err]. exact Hp.
Qed.

Lemma numbered_ids i ps : rowid <$> numbered i ps = seqZ i (Z.of_nat (length ps)).
Proof.
  revert i. induction ps as [| p ps IH]; intros i; [reflexivity |].
  simpl numbered. rewrite fmap_cons, IH.
  destruct p as [[[[[[ts ep] meth] rt] sc] ok] err]. simpl rowid.
  rewrite (seqZ_cons i (Z.of_nat (length (_ :: ps)))) by (simpl; lia).
  f_equal. f_equal; simpl length; lia.
Qed.

(** X8.  [main] keeps the rows well formed: if every row of the table has
    a timestamp in ISO-8601 form, a method without lower-case letter, and is
    either a success ([success = 1], no message) or a failure
    ([success = 0], [status_code = -1], a message), so has every row after
    [main] has run for any number of cycles, in any surroundings; on a file
    without table this is so from the start. *)
Theorem main_rows_consistent (w : World) (n : nat) (s : State) :
  holds_on (fun t => Forall row_consistent (rows t)) (database s) ->
  holds_on (fun t => Forall row_consistent (rows t)) (database (snd (main w n s))).
Proof.
  intros Hinv. pose proof (main_database w n s) as Hmain.
  destruct (sqlite w (connections s)).
  - destruct Hmain as (ps & Hps & ->). simpl.
    destruct (inserts_rows ps (default empty_table (database s))) as [-> _].
    apply Forall_app. split; [| apply numbered_consistent, Hps].
    destruct (database s); simpl in *; [exact Hinv | constructor].
  - rewrite Hmain. exact Hinv.
  - rewrite Hmain. exact Hinv.
Qed.

Lemma main_rows_consistent_witness :
  holds_on (fun t => Forall row_consistent (rows t))
    (database (snd (main world_first_times_out 2 (mkState None 0 0 0 [])))).
Proof.
  apply (main_rows_consistent world_first_times_out 2 (mkState None 0 0 0 [])).
  exact I.
Defined.

(** X9.  On a file that [main] alone has written the ids are 1, 2, 3, ...
    without gap, in the order of insertion, and the counter is the last id:
    a write that fails uses up no id.  [main] keeps this from any table of
    which it holds, and from a file without table. *)
Theorem main_ids_gapless (w : World) (n : nat) (s : State) :
  holds_on table_gapless (database s) ->
  holds_on table_gapless (database (snd (main w n s))).
Proof.
  intros Hinv. pose proof (main_database w n s) as Hmain.
  destruct (sqlite w (connections s)).
  - destruct Hmain as (ps & _ & ->). simpl.
    assert (Ht : table_gapless (default empty_table (database s))).
    { destruct (database s); simpl in *; [exact Hinv | split; reflexivity]. }
    destruct Ht as [Hids Hseq].
    destruct (inserts_rows ps (default empty_table (database s))) as [Hrows Hcount].
    unfold table_gapless. rewrite Hrows, Hcount, fmap_app, Hids, numbered_ids, Hseq.
    rewrite length_app, length_numbered, Nat2Z.inj_add. split; [| reflexivity].
    rewrite seqZ_app by lia. f_equal. f_equal. lia.
  - rewrite Hmain. exact Hinv.
  - rewrite Hmain. exact Hinv.
Qed.

Lemma main_ids_gapless_witness :
  let s' := snd (main world_locked_after_init 2 (mkState None 0 0 0 [])) in
  holds_on table_gapless (database s') /\
  rowid <$> table_rows (database s') = [1; 2; 3; 4; 5; 6] /\
  sqlite world_locked_after_init 1 = DbWriteError database_locked /\
  connections s' = 8%nat.
Proof.
  split.
  - apply (main_ids_gapless world_locked_after_init 2 (mkState None 0 0 0 [])).
    exact I.
  - vm_compute. repeat split.
Defined.

(** X10.  When [init_db] raises, [main] raises the same exception at once
    and the monitor never starts: nothing is requested, logged or written.
    When it returns, the table exists from then on, whatever the monitor
    meets. *)
Theorem main_starts_after_init (w : World) (n : nat) (s : State) :
  match sqlite w (connections s) with
  | DbOk => is_Some (database (snd (main w n s)))
  | DbConnectError e | DbWriteError e =>
      main w n s = (Raise e, count_connection s) /\
      trace (snd (main w n s)) = trace s /\
      requests_made (snd (main w n s)) = requests_made s /\
      database (snd (main w n s)) = database s
  end.
Proof.
  pose proof (main_database w n s) as Hmain.
  destruct (sqlite w (connections s)).
  - destruct Hmain as (ps & _ & ->). eauto.
  - rewrite Hmain. repeat split.
  - rewrite Hmain. repeat split.
Qed.

(** ** Writes that fail now and then *)

Lemma write_error_ok (w : World) (k : nat) (t : Table) :
  sqlite w k = DbOk -> write_error (sqlite w k) (Some t) = None.
Proof. intros ->. reflexivity. Qed.

Lemma write_error_not_ok (w : World) (k : nat) (t : Table) :
  sqlite w k <> DbOk -> exists e, write_error (sqlite w k) (Some t) = Some e.
Proof. destruct (sqlite w k); simpl; eauto. congruence. Qed.

(** X11.  When every request is answered and no two writes in a row fail,
    a cycle over endpoints that all have a url returns and adds one row per
    endpoint: a write that raises is made up for by the write of the
    handler. *)
Theorem isolated_write_failures_absorbed (w : World)
    (endpoints : list (gmap string string)) (s : State) (t : Table) :
  Forall (fun api => is_Some (api !! "url")) endpoints ->
  database s = Some t ->
  (forall k m u, exists st, http w k m u = Responded st) ->
  (forall k, sqlite w k <> DbOk -> sqlite w (S k) = DbOk) ->
  exists added,
    fst (cycle w endpoints s) = Ok tt /\
    table_rows (database (snd (cycle w endpoints s))) = rows t ++ added /\
    length added = length endpoints.
Proof.
  intros Hurls Ht Hhttp Hdb.
  assert (Hpass : fst (for_each endpoints (check w) s) = Ok tt).
  { revert s t Ht. induction Hurls as [| api rest [url Hurl] _ IH]; intros s t Ht;
      [reflexivity |].
    rewrite for_each_cons.
    destruct (Hhttp (requests_made s) (method_of api) url) as [st Hst].
    assert (Hcase : sqlite w (connections s) = DbOk \/ sqlite w (connections s) <> DbOk)
      by (destruct (sqlite w (connections s)); [left | right | right]; congruence).
    destruct Hcase as [Hok | Hbad].
    - rewrite (check_responded_stored w api url st s Hurl Hst)
        by (rewrite Ht; apply write_error_ok, Hok).
      rewrite Ht. eapply IH. reflexivity.
    - destruct (write_error_not_ok w (connections s) t Hbad) as [e He].
      rewrite (check_responded_retried w api url st e s Hurl Hst)
        by (rewrite Ht; first [exact He | apply write_error_ok, Hdb, Hbad]).
      rewrite Ht. eapply IH. reflexivity. }
  destruct (cycle_outcome w endpoints s)
    as (ps & evs & Hdbs & _ & _ & _ & _ & _ & Hres).
  assert (Hcycle : fst (cycle w endpoints s) = Ok tt).
  { unfold cycle, bind, time_sleep.
    destruct (for_each endpoints (check w) s) as [[[] | e] s1]; [reflexivity | discriminate]. }
  rewrite Hcycle in Hres. destruct Hres as (_ & Hcount & _).
  destruct (table_rows_inserts (database s) ps) as (added & Hrows & _ & Hadded).
  exists added. rewrite Hdbs, Hrows, Ht. rewrite Hadded by (rewrite Ht; eauto).
  auto.
Qed.

Lemma isolated_write_failures_absorbed_witness :
  exists added,
    fst (cycle (world_locked_once 200) [posts; users; posts] started) = Ok tt /\
    table_rows (database (snd (cycle (world_locked_once 200) [posts; users; posts] started))) =
      rows empty_table ++ added /\
    length added = length [posts; users; posts].
Proof.
  apply (isolated_write_failures_absorbed (world_locked_once 200)
           [posts; users; posts] started empty_table).
  - repeat constructor; eexists; reflexivity.
  - reflexivity.
  - intros k m u. exists 200. reflexivity.
  - intros k _. reflexivity.
Defined.

(** ** The summary as a whole *)

Lemma count_by_key {A K} `{EqDecision K} (f : A -> K) (l : list A) (ks : list K) :
  NoDup ks ->
  foldr Z.add 0 ((fun k => Z.of_nat (length (filter (fun x => f x = k) l))) <$> ks) =
  Z.of_nat (length (filter (fun x => f x ∈ ks) l)).
Proof.
  induction 1 as [| k ks Hk _ IH].
  - simpl. induction l as [| x l IHl]; [reflexivity |].
    rewrite filter_cons. destruct (decide (f x ∈ [])) as [Hin | _]; [| exact IHl].
    apply elem_of_nil in Hin. contradiction.
  - rewrite fmap_cons. simpl foldr. rewrite IH. clear IH.
    induction l as [| x l IHl]; [reflexivity |].
    rewrite !filter_cons.
    destruct (decide (f x = k)) as [Hx | Hx];
      destruct (decide (f x ∈ ks)) as [Hin | Hin];
      destruct (decide (f x ∈ k :: ks)) as [Hin' | Hin'];
      simpl length; try lia; exfalso;
      rewrite ?elem_of_cons in *; intuition congruence.
Qed.

Lemma filter_all {A} (P : A -> Prop) `{forall x, Decision (P x)} (l : list A) :
  Forall P l -> filter P l = l.
Proof.
  induction 1 as [| x l Hx _ IH]; [reflexivity |].
  rewrite filter_cons, IH. destruct (decide (P x)); [reflexivity | contradiction].
Qed.

Lemma sum_case_bounds g :
  0 <= sum_case 1 g /\ 0 <= sum_case 0 g /\
  sum_case 1 g + sum_case 0 g <= Z.of_nat (length g).
Proof.
  induction g as [| r g IH]; simpl; [lia |].
  destruct (success r =? 1) eqn:H1; destruct (success r =? 0) eqn:H0; lia.
Qed.

(** X12.  The summary splits the table by endpoint: its lines carry
    pairwise distinct endpoints, exactly those that occur in the table, and
    their totals add up to the number of rows.  Every line counts at least
    one row and has an average; its successes and failures are not negative
    and together do not exceed its total. *)
Theorem summary_partitions_table (t : Table) :
  NoDup (s_endpoint <$> select_summary t) /\
  (forall ep, ep ∈ s_endpoint <$> select_summary t <-> ep ∈ endpoint <$> rows t) /\
  foldr Z.add 0 (total <$> select_summary t) = Z.of_nat (length (rows t)) /\
  Forall (fun x =>
            1 <= total x /\ is_Some (avg_time x) /\
            0 <= successes x /\ 0 <= failures x /\
            successes x + failures x <= total x)
         (select_summary t).
Proof.
  unfold select_summary, group_keys, group_of.
  set (keys := remove_dups (endpoint <$> rows t)).
  assert (Hkeys : NoDup keys) by apply NoDup_remove_dups.
  assert (Hnames :
    s_endpoint <$> ((fun ep => aggregate ep (filter (fun r => endpoint r = ep) (rows t))) <$> keys)
    = keys).
  { rewrite <- list_fmap_compose. clear Hkeys.
    induction keys as [| k ks IH]; [reflexivity |]. rewrite fmap_cons, IH. reflexivity. }
  split; [rewrite Hnames; exact Hkeys |].
  split; [intros ep; rewrite Hnames; apply elem_of_remove_dups |].
  split.
  - transitivity
      (foldr Z.add 0
         ((fun k => Z.of_nat (length (filter (fun r => endpoint r = k) (rows t)))) <$> keys));
      [rewrite <- list_fmap_compose; reflexivity |].
    rewrite (count_by_key endpoint (rows t) keys Hkeys).
    rewrite filter_all; [reflexivity |].
    apply Forall_forall. intros r Hr. apply elem_of_remove_dups, list_elem_of_fmap. eauto.
  - apply Forall_fmap, Forall_forall. intros ep Hep. simpl.
    apply elem_of_remove_dups, list_elem_of_fmap in Hep as (r & -> & Hr).
    set (g := filter _ _).
    assert (Hg : r ∈ g) by (apply list_elem_of_filter; auto).
    destruct (sum_case_bounds g) as (H1 & H0 & Hsum).
    destruct g as [| r0 g]; [apply elem_of_nil in Hg; contradiction |].
    repeat split; simpl in *; eauto; lia.
Qed.

(** ** The health shown for an endpoint *)

Lemma rate_at_most_20 (f t : Z) :
  0 < t ->
  Qle_bool (inject_Z f / inject_Z t * 100) 20 = true <-> 5 * f <= t.
Proof.
  intros Ht. rewrite Qle_bool_iff.
  destruct t as [| p | p]; try lia.
  unfold Qle, Qdiv, Qmult, Qinv, inject_Z. simpl. lia.
Qed.

(** X13.  A line of the summary is shown as unstable exactly when more than
    one in five of the rows of its endpoint have [success = 0]; the guard of
    the template against a total of zero never applies to a line the query
    returns. *)
Theorem unstable_above_one_in_five (t : Table) (x : SummaryRow) :
  x ∈ select_summary t ->
  let records := filter (fun r => endpoint r = s_endpoint x) (rows t) in
  0 < total x /\
  total x = Z.of_nat (length records) /\
  failures x = Z.of_nat (length (filter (fun r => success r = 0) records)) /\
  (unstable x = true <-> total x < 5 * failures x).
Proof.
  intros Hx records.
  apply list_elem_of_fmap in Hx as (ep & -> & Hep).
  apply elem_of_remove_dups, list_elem_of_fmap in Hep as (r & -> & Hr).
  unfold group_of. simpl s_endpoint in *. subst records. set (g := filter _ _).
  assert (Hg : r ∈ g) by (apply list_elem_of_filter; auto).
  assert (Hpos : 0 < Z.of_nat (length g)).
  { destruct g; [apply elem_of_nil in Hg; contradiction | simpl; lia]. }
  split; [exact Hpos |]. split; [reflexivity |].
  split; [apply sum_case_filter |].
  unfold unstable, error_rate. simpl total. simpl failures.
  destruct (0 <? Z.of_nat (length g)) eqn:Hguard; [| apply Z.ltb_ge in Hguard; lia].
  rewrite negb_true_iff, <- not_true_iff_false, rate_at_most_20 by exact Hpos. lia.
Qed.

Lemma unstable_above_one_in_five_witness :
  let x := aggregate "https://api.test/posts"
             (group_of "https://api.test/posts" (rows (inserts scenario empty_table))) in
  let records :=
    filter (fun r => endpoint r = s_endpoint x) (rows (inserts scenario empty_table)) in
  0 < total x /\
  total x = Z.of_nat (length records) /\
  failures x = Z.of_nat (length (filter (fun r => success r = 0) records)) /\
  (unstable x = true <-> total x < 5 * failures x).
Proof.
  apply (unstable_above_one_in_five (inserts scenario empty_table)).
  vm_compute. repeat constructor.
Defined.

(** ** The cells of a row in the template *)

Lemma digit_char_cases d :
  exists k, (k < 10)%nat /\ digit_char d = ascii_of_nat (48 + k).
Proof.
  unfold digit_char. exists (Z.to_nat (d mod 10)). split; [| reflexivity].
  pose proof (Z.mod_pos_bound d 10). lia.
Qed.

Lemma digit_char_not_T d : digit_char d <> "T"%char.
Proof.
  destruct (digit_char_cases d) as (k & Hk & ->).
  do 10 (destruct k as [| k]; [discriminate |]). lia.
Qed.

Lemma digit_char_not_dot d : digit_char d <> "."%char.
Proof.
  destruct (digit_char_cases d) as (k & Hk & ->).
  do 10 (destruct k as [| k]; [discriminate |]). lia.
Qed.

Lemma str_app_cons c a b : String c a +:+ b = String c (a +:+ b).
Proof. reflexivity. Qed.

Lemma str_app_nil_r a : a +:+ "" = a.
Proof. induction a as [| c a IH]; [reflexivity |]. rewrite str_app_cons, IH. reflexivity. Qed.

Lemma str_app_assoc a b c : a +:+ (b +:+ c) = (a +:+ b) +:+ c.
Proof. induction a as [| x a IH]; [reflexivity |]. rewrite !str_app_cons, IH. reflexivity. Qed.

Lemma lacks_nil sep : lacks sep "".
Proof. intros c []. Qed.

Lemma lacks_cons sep c s : c <> sep -> lacks sep s -> lacks sep (String c s).
Proof. intros Hc Hs c' [<- | Hin]; [exact Hc | apply Hs, Hin]. Qed.

Lemma lacks_app sep a b : lacks sep a -> lacks sep b -> lacks sep (a +:+ b).
Proof.
  intros Ha Hb. induction a as [| c a IH]; [exact Hb |].
  rewrite str_app_cons. apply lacks_cons.
  - apply Ha. left. reflexivity.
  - apply IH. intros c' Hc'. apply Ha. right. exact Hc'.
Qed.

Lemma lacks_zero_padded sep width n :
  (forall d, digit_char d <> sep) -> lacks sep (zero_padded width n).
Proof.
  intros Hsep. revert n. induction width as [| width IH]; intros n; [apply lacks_nil |].
  simpl. apply lacks_app; [apply IH |]. apply lacks_cons; [apply Hsep | apply lacks_nil].
Qed.

Lemma str_split_absent (sep : ascii) (s : string) : lacks sep s -> str_split sep s = [s].
Proof.
  induction s as [| c s IH]; intros Hs; [reflexivity |].
  simpl. destruct (Ascii.eqb_spec c sep) as [-> | _].
  - exfalso. apply (Hs sep); [left |]; reflexivity.
  - rewrite IH; [reflexivity |]. intros c' Hc'. apply Hs. right. exact Hc'.
Qed.

Lemma str_split_at (sep : ascii) (p s : string) :
  lacks sep p -> str_split sep (p +:+ String sep s) = p :: str_split sep s.
Proof.
  induction p as [| c p IH]; intros Hp.
  - simpl. rewrite Ascii.eqb_refl. reflexivity.
  - rewrite str_app_cons. simpl. destruct (Ascii.eqb_spec c sep) as [-> | _].
    + exfalso. apply (Hp sep); [left |]; reflexivity.
    + rewrite IH; [reflexivity |]. intros c' Hc'. apply Hp. right. exact Hc'.
Qed.

Ltac show_lacks digits :=
  repeat match goal with
         | |- lacks _ (_ +:+ _) => apply lacks_app
         | |- lacks _ (String _ _) => apply lacks_cons
         | |- lacks _ EmptyString => apply lacks_nil
         | |- lacks _ (zero_padded _ _) => apply lacks_zero_padded, digits
         | |- _ <> _ => discriminate
         end.

(** X14.  For a timestamp written by [log_metric] the time cell of the
    recent checks is its [HH:MM:SS]: the text between the ["T"] and the
    fraction.  For a timestamp without ["T"], such as the
    [YYYY-MM-DD HH:MM:SS] of SQLite's own clock, the expression of the
    template has no second part to take and the page fails. *)
Theorem time_cell_of_timestamp :
  (forall d : datetime,
     time_cell (isoformat d) =
     Some (zero_padded 2 (hour d) +:+ ":" +:+ zero_padded 2 (minute d) +:+ ":" +:+
           zero_padded 2 (second d))) /\
  (forall ts : string,
     (forall c, In c (list_ascii_of_string ts) -> c <> "T"%char) ->
     time_cell ts = None).
Proof.
  split.
  - intros d. unfold time_cell, isoformat.
    set (date := zero_padded 4 (year d) +:+ "-" +:+ zero_padded 2 (month d) +:+ "-" +:+
                 zero_padded 2 (day d)).
    set (hms := zero_padded 2 (hour d) +:+ ":" +:+ zero_padded 2 (minute d) +:+ ":" +:+
                zero_padded 2 (second d)).
    set (frac := if microsecond d =? 0 then "" else "." +:+ zero_padded 6 (microsecond d)).
    assert (Hdate : lacks "T" date).
    { subst date. show_lacks digit_char_not_T. }
    assert (HhmsT : lacks "T" hms).
    { subst hms. show_lacks digit_char_not_T. }
    assert (Hhms : lacks "." hms).
    { subst hms. show_lacks digit_char_not_dot. }
    assert (Hfrac : lacks "T" frac).
    { subst frac. destruct (microsecond d =? 0); [apply lacks_nil |].
      show_lacks digit_char_not_T. }
    assert (Hshape :
      zero_padded 4 (year d) +:+ "-" +:+ zero_padded 2 (month d) +:+ "-" +:+
      zero_padded 2 (day d) +:+ "T" +:+ zero_padded 2 (hour d) +:+ ":" +:+
      zero_padded 2 (minute d) +:+ ":" +:+ zero_padded 2 (second d) +:+ frac
      = date +:+ String "T" (hms +:+ frac)).
    { subst date hms. rewrite <- !str_app_assoc. reflexivity. }
    rewrite Hshape, (str_split_at "T" date _ Hdate).
    rewrite (str_split_absent "T" (hms +:+ frac)) by (apply lacks_app; assumption).
    subst frac. destruct (microsecond d =? 0).
    + rewrite str_app_nil_r, (str_split_absent "." hms Hhms). reflexivity.
    + change ("." +:+ zero_padded 6 (microsecond d))
        with (String "." (zero_padded 6 (microsecond d))).
      rewrite (str_split_at "." hms _ Hhms). reflexivity.
  - intros ts Hts. unfold time_cell. rewrite (str_split_absent _ _ Hts). reflexivity.
Qed.

Lemma time_cell_of_timestamp_witness :
  time_cell (stamp (world_answering 200) 2) = Some "19:00:00" /\
  time_cell "2025-11-03 19:00:00" = None.
Proof.
  destruct time_cell_of_timestamp as [Hstamp Hplain]. split.
  - unfold stamp. rewrite Hstamp. reflexivity.
  - apply Hplain. simpl. intros c Hc.
    repeat (destruct Hc as [<- | Hc]; [discriminate |]). contradiction.
Defined.

(** X15.  How a row of the monitor shows among the recent checks: a
    success shows its status code and ["-"] as error; a failure shows
    ["Failed"] and the text of its exception, and ["-"] again when that text
    is empty, so that a failure without text has the error cell of a
    success. *)
Theorem cells_of_monitor_row (r : Row) :
  row_consistent r ->
  (success r = 1 /\ status_cell r = ShowCode (status_code r) /\ error_cell r = "-") \/
  (success r = 0 /\ status_cell r = ShowFailed /\
   exists text,
     error_message r = Some text /\
     error_cell r = if decide (text = "") then "-" else text).
Proof.
  intros (_ & _ & [[Hok Herr] | (Hok & _ & [text Herr])]);
    unfold status_cell, error_cell; rewrite Hok, Herr; simpl.
  - left. auto.
  - right. split; [reflexivity |]. split; [reflexivity |]. exists text.
    split; [reflexivity |]. destruct text; reflexivity.
Qed.

Lemma cells_of_monitor_row_witness :
  let r := row_of 1 ("2025-11-03T19:00:10", "https://api.test/posts", "GET", 1 # 1, -1, 0,
                     Some "") in
  (success r = 1 /\ status_cell r = ShowCode (status_code r) /\ error_cell r = "-") \/
  (success r = 0 /\ status_cell r = ShowFailed /\
   exists text,
     error_message r = Some text /\
     error_cell r = if decide (text = "") then "-" else text).
Proof.
  apply cells_of_monitor_row.
  split; [reflexivity |]. split; [reflexivity |]. right. simpl. eauto.
Defined.

(** ** The connection of a request *)

(** X16.  Within one application context [get_db] connects once: the call
    that finds no connection opens one and keeps it, and from then on every
    call returns that connection, opens none and changes nothing.  When the
    connect raises, which only a call on an empty context can meet, no
    connection is kept. *)
Theorem get_db_connects_once (w : World) (g : option DbOutcome) (s : State) :
  match get_db w g s with
  | (Ok (c, g'), s') =>
      g' = Some c /\
      get_db w g' s' = (Ok (c, g'), s') /\
      match g with
      | Some c0 => c = c0 /\ s' = s
      | None => c = sqlite w (connections s) /\ s' = count_connection s
      end
  | (Raise e, s') =>
      g = None /\ sqlite w (connections s) = DbConnectError e /\ s' = count_connection s
  end.
Proof.
  destruct g as [c0 |]; simpl; [auto |].
  unfold bind, sqlite3_connect, ret.
  destruct (sqlite w (connections s)) eqn:Hs; simpl; auto.
Qed.

(** The route in a fresh context is the dashboard of the claims. *)
Lemma dashboard_in_fresh (w : World) (s : State) :
  dashboard w s =
  match dashboard_in w None s with
  | (Ok (page, _), s') => (Ok page, s')
  | (Raise e, s') => (Raise e, s')
  end.
Proof.
  unfold dashboard, dashboard_in, get_db, fetch_dashboard, bind, sqlite3_connect, ret.
  destruct (sqlite w (connections s)); simpl; [| reflexivity | reflexivity].
  destruct (database s); reflexivity.
Qed.

(** ** The recent rows of any table *)

Lemma insert_desc_perm r l : insert_desc r l ≡ₚ r :: l.
Proof.
  induction l as [| x l IH]; simpl; [reflexivity |].
  destruct (rowid x <=? rowid r); [reflexivity |].
  rewrite IH. apply Permutation_swap.
Qed.

Lemma order_by_id_desc_perm l : order_by_id_desc l ≡ₚ l.
Proof.
  induction l as [| x l IH]; [reflexivity |].
  unfold order_by_id_desc in *. simpl. rewrite insert_desc_perm, IH. reflexivity.
Qed.

Lemma insert_desc_falls r l :
  StronglySorted (fun a b => rowid b <= rowid a) l ->
  StronglySorted (fun a b => rowid b <= rowid a) (insert_desc r l).
Proof.
  induction 1 as [| x l Hl IH Hx]; simpl; [repeat constructor |].
  destruct (rowid x <=? rowid r) eqn:Hle.
  - apply Z.leb_le in Hle. constructor; [constructor; assumption |].
    constructor; [exact Hle |]. eapply Forall_impl; [exact Hx |]. simpl. intros; lia.
  - apply Z.leb_gt in Hle. constructor; [exact IH |].
    rewrite insert_desc_perm. constructor; [lia | exact Hx].
Qed.

Lemma order_by_id_desc_falls l :
  StronglySorted (fun a b => rowid b <= rowid a) (order_by_id_desc l).
Proof.
  induction l as [| x l IH]; [constructor |].
  unfold order_by_id_desc in *. simpl. apply insert_desc_falls, IH.
Qed.

(** X17.  Whatever the table holds, ids in order or not, the query of the
    recent checks returns rows of the table, as many as the limit allows,
    by falling id, and no row it leaves out has a larger id than a row it
    returns. *)
Theorem recent_are_largest_ids (n : nat) (t : Table) :
  exists rest,
    rows t ≡ₚ select_recent n t ++ rest /\
    length (select_recent n t) = Nat.min n (length (rows t)) /\
    StronglySorted (fun a b => rowid b <= rowid a) (select_recent n t) /\
    (forall r r', r ∈ select_recent n t -> r' ∈ rest -> rowid r' <= rowid r).
Proof.
  unfold select_recent. exists (drop n (order_by_id_desc (rows t))).
  pose proof (order_by_id_desc_falls (rows t)) as Hsorted.
  rewrite <- (take_drop n (order_by_id_desc (rows t))) in Hsorted.
  apply StronglySorted_app in Hsorted as (Hcross & Htake & _).
  split; [rewrite take_drop; symmetry; apply order_by_id_desc_perm |].
  split; [rewrite length_take, (Permutation_length (order_by_id_desc_perm (rows t)));
          reflexivity |].
  split; [exact Htake |].
  intros r r' Hr Hr'. exact (Hcross r r' Hr Hr').
Qed.

(** ** A write seen by the dashboard *)

(** X18.  What [log_metric] has written the dashboard shows: when both
    connections work and the table is in order, the first of the recent
    rows of a page served right after a call of [log_metric] is the row of
    that call, with the values passed, the next id and the timestamp taken
    inside the call, and the summary line of its endpoint counts it on top
    of the rows the endpoint had. *)
Theorem logged_metric_heads_dashboard (w : World) (ep meth : string) (rt : Q)
    (sc ok : Z) (err : option string) (s : State) (t : Table) :
  database s = Some t ->
  table_wf t ->
  sqlite w (connections s) = DbOk ->
  sqlite w (S (connections s)) = DbOk ->
  let r := mkRow (seq t + 1) (stamp w (clock_reads s)) ep meth rt sc ok err in
  exists recent summary s',
    (log_metric w ep meth rt sc ok err >> dashboard w) s = (Ok (recent, summary), s') /\
    head recent = Some r /\
    filter (fun x => s_endpoint x = ep) summary =
      [aggregate ep (group_of ep (rows t) ++ [r])] /\
    database s' = Some (mkTable (rows t ++ [r]) (seq t + 1)).
Proof.
  intros Ht Hwf Hc1 Hc2 r.
  unfold bind. rewrite log_metric_eq, Hc1, Ht. simpl.
  erewrite dashboard_ok; [| exact Hc2 | reflexivity].
  eexists _, _, _. split; [reflexivity |].
  set (t' := insert_row _ t).
  assert (Hwf' : table_wf t') by apply insert_row_wf, Hwf.
  split; [| split; [| reflexivity]].
  - unfold select_recent. rewrite (order_by_id_desc_sorted _ (proj1 Hwf')).
    subst t'. unfold insert_row. simpl. rewrite reverse_snoc. reflexivity.
  - unfold select_summary, group_keys.
    rewrite (filter_keys_unique (fun k => aggregate k (group_of k (rows t'))) s_endpoint);
      [| reflexivity | apply NoDup_remove_dups |].
    + subst t'. unfold insert_row, group_of. simpl. rewrite filter_app, filter_cons. simpl.
      destruct (decide (ep = ep)); [reflexivity | contradiction].
    + apply elem_of_remove_dups. subst t'. unfold insert_row. simpl.
      rewrite fmap_app. apply elem_of_app. right. simpl. left.
Qed.

Lemma logged_metric_heads_dashboard_witness :
  let w := world_answering 200 in
  let s := mkState (Some (inserts scenario empty_table)) 0 0 0 [] in
  let r := mkRow (seq (inserts scenario empty_table) + 1) (stamp w (clock_reads s))
                 "https://api.test/users" "GET" (1 # 4) 200 1 None in
  exists recent summary s',
    (log_metric w "https://api.test/users" "GET" (1 # 4) 200 1 None >> dashboard w) s =
      (Ok (recent, summary), s') /\
    head recent = Some r /\
    filter (fun x => s_endpoint x = "https://api.test/users") summary =
      [aggregate "https://api.test/users"
         (group_of "https://api.test/users" (rows (inserts scenario empty_table)) ++ [r])] /\
    database s' =
      Some (mkTable (rows (inserts scenario empty_table) ++ [r])
                    (seq (inserts scenario empty_table) + 1)).
Proof.
  apply (logged_metric_heads_dashboard (world_answering 200) "https://api.test/users" "GET"
           (1 # 4) 200 1 None
           (mkState (Some (inserts scenario empty_table)) 0 0 0 [])
           (inserts scenario empty_table)).
  - reflexivity.
  - apply inserts_wf, empty_table_wf.
  - reflexivity.
  - reflexivity.
Defined.
